(** * cli.py: the command-line front end of the strikeout projection model

    A shallow embedding of [src/cli.py] and of the parts of the Python
    runtime it relies on (dictionary lookups, f-string formatting with the
    [.1f] format specification, [try]/[except], [argparse], [logging]),
    followed by the properties of [setup_parser], [run_prediction],
    [format_result], [main] and the [__main__] block.

    Python [str] values are modelled as their UTF-8 encoding; a float is an
    IEEE 754 binary64 value ([spec_float] with precision 53 and maximal
    exponent 1024). *)

From Stdlib Require Import ZArith String Ascii List DecimalString.
From Stdlib Require Import Floats.SpecFloat.
From stdpp Require Import base option strings gmap.

Open Scope Z_scope.

(** ** Python values, exceptions and results *)

Module Py.

(** The values a projection result or an argparse namespace may hold:
    scalars, and the lists of strings that argparse builds. *)
Inductive PyValue :=
| PyNone
| PyBool (b : bool)
| PyInt (n : Z)
| PyFloat (f : spec_float)
| PyStr (s : string)
| PyList (items : list string).

(** Exception classes.  The first group derives from [Exception]; the
    second group derives from [BaseException] only ([CancelledError] is
    the one of asyncio, Python 3.8 and later).  [SystemExit] is a
    constructor of [PyExc] since it carries the exit code. *)
Inductive ExcClass :=
| Exception
| KeyError
| ValueError
| TypeError
| OverflowError
| UnicodeEncodeError
| AttributeError
| RuntimeError
| OSError
| UserException (name : string)
| BaseException
| KeyboardInterrupt
| CancelledError
| GeneratorExit
| UserBaseException (name : string).

(** A raised exception: its class and the text [str(e)] returns, or
    [SystemExit] with its [code] ([None] when raised without one). *)
Inductive PyExc :=
| Exc (cls : ExcClass) (msg : string)
| SystemExit (code : option Z).

Definition derives_from_Exception (c : ExcClass) : bool :=
  match c with
  | BaseException | KeyboardInterrupt | CancelledError | GeneratorExit
  | UserBaseException _ => false
  | _ => true
  end.

(** [isinstance(e, Exception)] *)
Definition isinstance_Exception (e : PyExc) : bool :=
  match e with
  | Exc c _ => derives_from_Exception c
  | SystemExit _ => false
  end.

(** [isinstance(e, KeyboardInterrupt)] *)
Definition isinstance_KeyboardInterrupt (e : PyExc) : bool :=
  match e with
  | Exc KeyboardInterrupt _ => true
  | _ => false
  end.

(** Decimal digits of an integer, as [str(n)] prints them. *)
Definition str_of_Z (n : Z) : string := NilZero.string_of_int (Z.to_int n).

(** [str(e)] *)
Definition exc_str (e : PyExc) : string :=
  match e with
  | Exc _ msg => msg
  | SystemExit None => ""
  | SystemExit (Some n) => str_of_Z n
  end.

(** The outcome of evaluating an expression: a value, or a raised
    exception. *)
Inductive PyResult (A : Type) :=
| Return (a : A)
| Raise (e : PyExc).
Arguments Return {A} a.
Arguments Raise {A} e.

#[export] Instance PyResult_ret : MRet PyResult := fun A a => Return a.
#[export] Instance PyResult_bind : MBind PyResult := fun A B f r =>
  match r with
  | Return a => f a
  | Raise e => Raise e
  end.

(** [str(n)] and [repr(n)] for an int [n]: Python 3.11 refuses to convert
    an int of more than 4300 digits ([sys.get_int_max_str_digits()]). *)
Definition INT_MAX_STR_DIGITS : Z := 4300.

Definition int_str (n : Z) : PyResult string :=
  if Z.abs n <? 10 ^ INT_MAX_STR_DIGITS then Return (str_of_Z n)
  else
    Raise (Exc ValueError
             ("Exceeds the limit (4300 digits) for integer string conversion; "
              +:+ "use sys.set_int_max_str_digits() to increase the limit")).
Arguments int_str : simpl never.

(** Truth value of a value, as [if v:] tests it. *)
Definition truthy (v : PyValue) : bool :=
  match v with
  | PyNone => false
  | PyBool b => b
  | PyInt n => negb (n =? 0)
  | PyFloat (S754_zero _) => false
  | PyFloat _ => true
  | PyStr s => negb (String.eqb s "")
  | PyList items => negb (Nat.eqb (length items) 0)
  end.

(** [v == s] for a string literal [s]. *)
Definition eq_str (v : PyValue) (s : string) : bool :=
  match v with
  | PyStr s' => String.eqb s' s
  | _ => false
  end.

Definition newline : string := String "010"%char EmptyString.

(** [sep.join(parts)] *)
Fixpoint join (sep : string) (parts : list string) : string :=
  match parts with
  | [] => ""
  | [p] => p
  | p :: ps => p +:+ sep +:+ join sep ps
  end.

(** *** The [.1f] format specification *)

(** Nearest integer to [num / den] for [den > 0], ties to even. *)
Definition round_half_even (num den : Z) : Z :=
  let q := num / den in
  let r := num mod den in
  if 2 * r <? den then q
  else if 2 * r =? den then (if Z.even q then q else q + 1)
  else q + 1.

(** The number of tenths nearest to [m * 2^e]: float formatting is
    correctly rounded from the exact binary value. *)
Definition tenths (m : positive) (e : Z) : Z :=
  if 0 <=? e then 10 * (Z.pos m * 2 ^ e)
  else round_half_even (10 * Z.pos m) (2 ^ (- e)).

Definition fixed1 (s : bool) (t : Z) : string :=
  (if s then "-" else "") +:+ str_of_Z (t / 10) +:+ "." +:+ str_of_Z (t mod 10).

(** [format(f, '.1f')] for a float [f] *)
Definition float_format_1f (f : spec_float) : string :=
  match f with
  | S754_nan => "nan"
  | S754_infinity s => if s then "-inf" else "inf"
  | S754_zero s => fixed1 s 0
  | S754_finite s m e => fixed1 s (tenths m e)
  end.

(** [float(n)] for an int [n]: the nearest binary64, [OverflowError] past
    the largest one. *)
Definition float_of_int (n : Z) : PyResult spec_float :=
  match binary_normalize 53 1024 n 0 false with
  | S754_infinity _ => Raise (Exc OverflowError "int too large to convert to float")
  | f => Return f
  end.

(** [format(v, '.1f')]: floats are formatted, ints (and bools, a subclass)
    are converted to float first, the other types reject the [f] code. *)
Definition format_1f (v : PyValue) : PyResult string :=
  match v with
  | PyFloat f => Return (float_format_1f f)
  | PyInt n => f ← float_of_int n; Return (float_format_1f f)
  | PyBool b => f ← float_of_int (if b then 1 else 0); Return (float_format_1f f)
  | PyStr _ => Raise (Exc ValueError "Unknown format code 'f' for object of type 'str'")
  | PyNone => Raise (Exc TypeError "unsupported format string passed to NoneType.__format__")
  | PyList _ => Raise (Exc TypeError "unsupported format string passed to list.__format__")
  end.

(** [repr(k)] for a string made of printable ASCII characters without
    quote or backslash, which is what every subscript key and attribute
    name of cli.py is. *)
Definition repr_plain (k : string) : string := "'" +:+ k +:+ "'".

(** [d[k]] *)
Definition getitem (d : gmap string PyValue) (k : string) : PyResult PyValue :=
  match d !! k with
  | Some v => Return v
  | None => Raise (Exc KeyError (repr_plain k))
  end.

(** [d.get(k, dflt)] *)
Definition get (d : gmap string PyValue) (k : string) (dflt : PyValue) : PyValue :=
  match d !! k with
  | Some v => v
  | None => dflt
  end.

End Py.
Import Py.

Abbreviation Dict := (gmap string PyValue).

(** ** The argparse module

    The part of [argparse.ArgumentParser] that [setup_parser] configures:
    optional arguments with the [store], [store_true] and [help] actions,
    and one required sub-command.  Parsing follows [parse_args] of
    Python 3.11: every argument string is first classified (option,
    argument or the [--] separator), then the strings are consumed from
    left to right, then the required actions are checked. *)

Module Argparse.

Abbreviation Namespace := (gmap string PyValue).

Inductive ActionKind := Store | StoreTrue | Help.

(** An optional argument.  [default = None] stands for [SUPPRESS]. *)
Record Action := {
  option_strings : list string;
  dest : string;
  kind : ActionKind;
  required : bool;
  default : option PyValue
}.

(** [nargs]: a [store] action takes one argument string, the others none. *)
Definition takes_argument (a : Action) : bool :=
  match kind a with
  | Store => true
  | _ => false
  end.

Definition action_name (a : Action) : string := join "/" (option_strings a).

(** A parser whose actions are all optional arguments. *)
Record Parser := { actions : list Action }.

(** [add_subparsers(dest=..., required=...)] with its [add_parser] calls. *)
Record SubParsers := {
  sub_dest : string;
  sub_required : bool;
  choices : list (string * Parser)
}.

(** The top-level parser: optional arguments and the sub-command. *)
Record ArgumentParser := {
  optionals : list Action;
  subparsers : SubParsers
}.

(** The message [parser.error] is called with. *)
Inductive ArgError :=
| AmbiguousOption (arg : string) (matches : list string)
| ExpectedOneArgument (action : string)
| IgnoredExplicitArgument (action : string) (explicit : string)
| InvalidChoice (value : string) (names : list string)
| RequiredArguments (names : list string)
| UnrecognizedArguments (args : list string).

(** Why parsing stopped: the help action ran ([parser.exit()], status 0),
    or [parser.error] was called (status 2). *)
Inductive Stop :=
| HelpRequested
| Error (e : ArgError).

Definition stop_status (s : Stop) : Z :=
  match s with
  | HelpRequested => 0
  | Error _ => 2
  end.

(** Parsing either delivers a value or stops the process. *)
Inductive Outcome (A : Type) :=
| Done (a : A)
| Halt (prog : list string) (s : Stop).
Arguments Done {A} a.
Arguments Halt {A} prog s.

#[export] Instance Outcome_ret : MRet Outcome := fun A a => Done a.
#[export] Instance Outcome_bind : MBind Outcome := fun A B f r =>
  match r with
  | Done a => f a
  | Halt prog s => Halt prog s
  end.

(** *** Strings *)

Definition is_dash (c : ascii) : bool := Ascii.eqb c "-"%char.

Fixpoint contains (c : ascii) (s : string) : bool :=
  match s with
  | EmptyString => false
  | String c' s' => Ascii.eqb c c' || contains c s'
  end.

(** [s.split('=', 1)] when ['=' in s] *)
Fixpoint split_eq (s : string) : option (string * string) :=
  match s with
  | EmptyString => None
  | String c s' =>
    if Ascii.eqb c "="%char then Some (EmptyString, s')
    else match split_eq s' with
         | Some (l, r) => Some (String c l, r)
         | None => None
         end
  end.

(** [option_string[1] not in prefix_chars] *)
Definition single_dash (option_string : string) : bool :=
  match option_string with
  | String _ (String c _) => negb (is_dash c)
  | _ => false
  end.

(** *** Classification of the argument strings *)

(** [_option_string_actions]: every option string with its action. *)
Definition option_string_actions (acts : list Action) : list (string * Action) :=
  flat_map (fun a => map (fun s => (s, a)) (option_strings a)) acts.

Fixpoint lookup_option (table : list (string * Action)) (s : string) : option Action :=
  match table with
  | [] => None
  | (s', a) :: table' => if String.eqb s s' then Some a else lookup_option table' s
  end.

(** What [_parse_optional] returns for an 'O' string: the action (if any),
    the option string it was matched with and the explicit argument. *)
Definition OptionTuple : Type := option Action * string * option string.

(** An argument string after classification; ['O'] keeps the string as
    typed, which is what goes to the extras when nothing consumes it. *)
Inductive Token :=
| TArg (s : string)
| TSep
| TOpt (raw : string) (a : option Action) (option_string : string) (explicit : option string).

Definition raw_string (t : Token) : string :=
  match t with
  | TArg s => s
  | TSep => "--"
  | TOpt raw _ _ _ => raw
  end.

Section Parsing.

(** [_negative_number_matcher.match], a regular expression over (Unicode)
    digits: a string it matches is an argument, not an option, as long as
    no option of the parser looks like a negative number. *)
Variable negative_number : string -> bool.

Definition has_negative_number_optionals (table : list (string * Action)) : bool :=
  existsb (fun '(s, _) => negative_number s) table.

(** [_get_option_tuples]: the options an abbreviation may stand for. *)
Definition get_option_tuples (table : list (string * Action)) (arg : string)
  : list OptionTuple :=
  match arg with
  | String c0 (String c1 rest) =>
    if is_dash c1 then
      let '(option_prefix, explicit_arg) :=
        match split_eq arg with
        | Some (l, r) => (l, Some r)
        | None => (arg, None)
        end in
      omap (fun '(s, a) =>
              if String.prefix option_prefix s then Some (Some a, s, explicit_arg)
              else None) table
    else
      let short_option_prefix := String c0 (String c1 EmptyString) in
      omap (fun '(s, a) =>
              if String.eqb s short_option_prefix then Some (Some a, s, Some rest)
              else if String.prefix arg s then Some (Some a, s, None)
              else None) table
  | _ => []
  end.

(** [_parse_optional]: [Done None] for an argument ('A'), [Done (Some t)]
    for an option ('O'); an ambiguous abbreviation is an error. *)
Definition parse_optional (prog : list string) (table : list (string * Action))
    (arg : string) : Outcome (option OptionTuple) :=
  match arg with
  | EmptyString => Done None
  | String c _ =>
    if negb (is_dash c) then Done None
    else
      match lookup_option table arg with
      | Some a => Done (Some (Some a, arg, None))
      | None =>
        if Nat.eqb (String.length arg) 1 then Done None
        else
          let with_eq :=
            match split_eq arg with
            | Some (l, r) =>
              match lookup_option table l with
              | Some a => Some (Some a, l, Some r)
              | None => None
              end
            | None => None
            end in
          match with_eq with
          | Some t => Done (Some t)
          | None =>
            match get_option_tuples table arg with
            | [] =>
              if negative_number arg && negb (has_negative_number_optionals table)
              then Done None
              else if contains " "%char arg then Done None
              else Done (Some (None, arg, None))
            | [t] => Done (Some t)
            | ts => Halt prog (Error (AmbiguousOption arg (map (fun t => snd (fst t)) ts)))
            end
          end
      end
  end.

(** The pattern of 'O', 'A' and '-' of [_parse_known_args]: everything
    after the first [--] is an argument. *)
Fixpoint classify (prog : list string) (table : list (string * Action))
    (args : list string) : Outcome (list Token) :=
  match args with
  | [] => Done []
  | arg :: args' =>
    if String.eqb arg "--" then Done (TSep :: map TArg args')
    else
      t ← parse_optional prog table arg;
      ts ← classify prog table args';
      Done (match t with
            | None => TArg arg
            | Some (a, s, e) => TOpt arg a s e
            end :: ts)
  end.

End Parsing.

(** *** Consuming the argument strings *)

(** What has been parsed so far: the namespace, the [dest] of the actions
    seen (a parser of cli.py has no two actions with one [dest]), and the
    extras. *)
Record State := {
  namespace : Namespace;
  seen_actions : list string;
  extras : list string
}.

Definition add_extra (s : string) (st : State) : State :=
  {| namespace := namespace st; seen_actions := seen_actions st;
     extras := extras st ++ [s] |}.

(** [arg_strings.remove('--')]: the list without its first [--]. *)
Fixpoint remove_separator (args : list string) : list string :=
  match args with
  | [] => []
  | arg :: args' =>
    if String.eqb arg "--" then args' else arg :: remove_separator args'
  end.

(** [_get_values] for an action that takes one argument string: the first
    [--] is removed from its argument strings; one string left is the
    value, anything else is stored as a list.  So an option given [--] as
    its explicit argument ([--park=--]) gets the empty list. *)
Definition get_values (args : list string) : PyValue :=
  match remove_separator args with
  | [s] => PyStr s
  | args' => PyList args'
  end.

(** [take_action]: the action is recorded as seen and called. *)
Definition take_action (prog : list string) (a : Action) (args : list string)
    (st : State) : Outcome State :=
  let seen := seen_actions st ++ [dest a] in
  match kind a with
  | Help => Halt prog HelpRequested
  | StoreTrue =>
    Done {| namespace := <[dest a := PyBool true]> (namespace st);
            seen_actions := seen; extras := extras st |}
  | Store =>
    Done {| namespace := <[dest a := get_values args]> (namespace st);
            seen_actions := seen; extras := extras st |}
  end.

Fixpoint take_actions (prog : list string)
    (tuples : list (Action * list string)) (st : State) : Outcome State :=
  match tuples with
  | [] => Done st
  | (a, args) :: tuples' =>
    st' ← take_action prog a args st;
    take_actions prog tuples' st'
  end.

(** An option without explicit argument matches its arguments against the
    strings that follow: a [store] action needs an 'A' next. *)
Definition match_following (prog : list string) (a : Action) (next : option Token)
  : Outcome (list string * bool) :=
  if takes_argument a then
    match next with
    | Some (TArg s) => Done ([s], true)
    | _ => Halt prog (Error (ExpectedOneArgument (action_name a)))
    end
  else Done ([], false).

(** The loop of [consume_optional] for an option that came with an
    explicit argument [explicit]: an action taking one argument takes it; a
    single-dash flag taking none goes on with the next character as another
    single-dash flag ([-xyz] is [-x -y -z]).  The result is the list of
    actions to take with their arguments, and whether the next string was
    consumed. *)
Fixpoint consume_explicit (prog : list string) (table : list (string * Action))
    (a : Action) (option_string explicit : string) (next : option Token)
    (acc : list (Action * list string))
  : Outcome (list (Action * list string) * bool) :=
  if takes_argument a then Done (acc ++ [(a, [explicit])], false)
  else
    match explicit with
    | String c explicit' =>
      if single_dash option_string then
        let option_string' := String "-"%char (String c EmptyString) in
        match lookup_option table option_string' with
        | Some a' =>
          match explicit' with
          | EmptyString =>
            '(args, took) ← match_following prog a' next;
            Done (acc ++ [(a, []); (a', args)], took)
          | _ => consume_explicit prog table a' option_string' explicit' next
                   (acc ++ [(a, [])])
          end
        | None => Halt prog (Error (IgnoredExplicitArgument (action_name a) explicit))
        end
      else Halt prog (Error (IgnoredExplicitArgument (action_name a) explicit))
    | EmptyString =>
      Halt prog (Error (IgnoredExplicitArgument (action_name a) explicit))
    end.

(** [consume_optional] for an option with a known action. *)
Definition consume_optional (prog : list string) (table : list (string * Action))
    (a : Action) (option_string : string) (explicit : option string)
    (next : option Token) (st : State) : Outcome (State * bool) :=
  '(tuples, took) ←
    match explicit with
    | Some e => consume_explicit prog table a option_string e next []
    | None =>
      '(args, took) ← match_following prog a next;
      Done ([(a, args)], took)
    end;
  st' ← take_actions prog tuples st;
  Done (st', took).

(** The consuming loop of a parser without positional arguments: options
    are consumed with their arguments; any other string is an extra. *)
Fixpoint consume (prog : list string) (table : list (string * Action))
    (toks : list Token) (st : State) : Outcome State :=
  match toks with
  | [] => Done st
  | TOpt _ (Some a) option_string explicit :: toks' =>
    '(st', took) ← consume_optional prog table a option_string explicit
                      (head toks') st;
    if took : bool then
      match toks' with
      | _ :: toks'' => consume prog table toks'' st'
      | [] => Done st'
      end
    else consume prog table toks' st'
  | t :: toks' => consume prog table toks' (add_extra (raw_string t) st)
  end.

(** The defaults [parse_known_args] puts into the namespace first. *)
Definition add_defaults (acts : list Action) (ns : Namespace) : Namespace :=
  fold_left (fun ns a =>
               match default a, ns !! dest a with
               | Some v, None => <[dest a := v]> ns
               | _, _ => ns
               end) acts ns.

(** The names of the required actions that were not seen. *)
Definition missing_required (acts : list Action) (seen : list string) : list string :=
  map action_name
      (filter (fun a => required a && negb (bool_decide (dest a ∈ seen))) acts).

Definition check_required (prog : list string) (names : list string) : Outcome unit :=
  match names with
  | [] => Done tt
  | _ => Halt prog (Error (RequiredArguments names))
  end.

(** [_name_parser_map[name]]: the parser of a sub-command. *)
Fixpoint lookup_choice (cs : list (string * Parser)) (name : string) : option Parser :=
  match cs with
  | [] => None
  | (n, p) :: cs' => if String.eqb name n then Some p else lookup_choice cs' name
  end.

Section ParseArgs.

Variable negative_number : string -> bool.

(** [parse_known_args] of a sub-command's parser, on a fresh namespace. *)
Definition parse_known_args_sub (prog : list string) (p : Parser) (args : list string)
  : Outcome (Namespace * list string) :=
  let table := option_string_actions (actions p) in
  toks ← classify negative_number prog table args;
  st ← consume prog table toks
         {| namespace := add_defaults (actions p) ∅; seen_actions := [];
            extras := [] |};
  _ ← check_required prog (missing_required (actions p) (seen_actions st));
  Done (namespace st, extras st).

(** The sub-command action ([_SubParsersAction.__call__]) on the strings
    [name :: args]: the name must be a choice; it is stored under [dest];
    the chosen parser parses the rest on a namespace of its own, whose
    attributes are then copied; its extras are kept for [parse_args]. *)
Definition call_subparsers (prog : list string) (sp : SubParsers)
    (name : string) (args : list string) (st : State) : Outcome State :=
  match lookup_choice (choices sp) name with
  | None => Halt prog (Error (InvalidChoice name (map fst (choices sp))))
  | Some p =>
    '(subns, unrecognized) ← parse_known_args_sub (prog ++ [name]) p args;
    Done {| namespace := subns ∪ <[sub_dest sp := PyStr name]> (namespace st);
            seen_actions := seen_actions st ++ [sub_dest sp];
            extras := extras st ++ unrecognized |}
  end.

(** The consuming loop of the top-level parser.  Its only positional is
    the sub-command, which takes the first argument and every string after
    it; options before it are the top-level parser's own. *)
Fixpoint consume_top (prog : list string) (p : ArgumentParser)
    (toks : list Token) (st : State) : Outcome State :=
  match toks with
  | [] => Done st
  | TOpt _ (Some a) option_string explicit :: toks' =>
    '(st', took) ← consume_optional prog (option_string_actions (optionals p))
                      a option_string explicit (head toks') st;
    if took : bool then
      match toks' with
      | _ :: toks'' => consume_top prog p toks'' st'
      | [] => Done st'
      end
    else consume_top prog p toks' st'
  | TOpt raw None _ _ :: toks' => consume_top prog p toks' (add_extra raw st)
  | TArg name :: toks' =>
    call_subparsers prog (subparsers p) name (map raw_string toks') st
  | TSep :: [] => Done (add_extra "--" st)
  | TSep :: _ =>
    Halt prog (Error (InvalidChoice "--" (map fst (choices (subparsers p)))))
  end.

Definition parse_known_args (prog : list string) (p : ArgumentParser)
    (args : list string) : Outcome (Namespace * list string) :=
  let sp := subparsers p in
  let ns := <[sub_dest sp := PyNone]> (add_defaults (optionals p) ∅) in
  toks ← classify negative_number prog (option_string_actions (optionals p)) args;
  st ← consume_top prog p toks
         {| namespace := ns; seen_actions := []; extras := [] |};
  _ ← check_required prog
        (missing_required (optionals p) (seen_actions st)
         ++ (if sub_required sp && negb (bool_decide (sub_dest sp ∈ seen_actions st))
             then [sub_dest sp] else []));
  Done (namespace st, extras st).

(** [parser.parse_args(args)]: extras are an error. *)
Definition parse_args (p : ArgumentParser) (args : list string) : Outcome Namespace :=
  '(ns, argv) ← parse_known_args [] p args;
  match argv with
  | [] => Done ns
  | _ => Halt [] (Error (UnrecognizedArguments argv))
  end.

End ParseArgs.

(** *** Building a parser *)

(** [ArgumentParser(...)]: [add_help] is on, so [-h] and [--help] exist. *)
Definition help_action : Action :=
  {| option_strings := ["-h"; "--help"]; dest := "help"; kind := Help;
     required := false; default := None |}.

Definition new_parser : Parser := {| actions := [help_action] |}.

(** The [dest] of a long option: the option string without its dashes. *)
Fixpoint lstrip_dashes (s : string) : string :=
  match s with
  | String c s' => if is_dash c then lstrip_dashes s' else s
  | EmptyString => EmptyString
  end.

(** [p.add_argument(flag, required=req, default=dflt)] (action [store])
    and [p.add_argument(flag, action='store_true')]. *)
Definition add_argument (p : Parser) (flag : string) (k : ActionKind)
    (req : bool) (dflt : PyValue) : Parser :=
  {| actions := actions p ++
       [ {| option_strings := [flag]; dest := lstrip_dashes flag; kind := k;
            required := req; default := Some dflt |} ] |}.

End Argparse.
Import Argparse.

(** ** [setup_parser] *)

(** [setup_parser] builds two parsers.  This is the one of the [predict]
    sub-command, which [subparsers.add_parser('predict', ...)] creates and
    the four [add_argument] calls fill. *)
Definition predict_parser : Parser :=
  let predict_parser := new_parser in
  let predict_parser := add_argument predict_parser "--pitcher" Store true PyNone in
  let predict_parser := add_argument predict_parser "--opponent" Store true PyNone in
  let predict_parser := add_argument predict_parser "--park" Store false (PyStr "") in
  add_argument predict_parser "--debug" StoreTrue false (PyBool false).

(** The top-level parser, with the sub-command stored under [command] and
    required. *)
Definition setup_parser : ArgumentParser :=
  let parser := new_parser in
  {| optionals := actions parser;
     subparsers := {| sub_dest := "command"; sub_required := true;
                      choices := [("predict", predict_parser)] |} |}.

(** The option strings of the two parsers with their actions. *)
Definition predict_table : list (string * Action) :=
  option_string_actions (actions predict_parser).

Definition top_table : list (string * Action) :=
  option_string_actions (optionals setup_parser).

(** ** The process state and its effects *)

Inductive Level := DEBUG | INFO | WARNING | ERROR | CRITICAL.

(** A record handed to the root logger. *)
Record LogRecord := {
  levelname : Level;
  message : string
}.

(** What [logging.basicConfig] installs on the root logger. *)
Record LogConfig := {
  level : Level;
  format : string
}.

(** What argparse writes before it exits: the help text (standard output)
    or the usage line and an error message (standard error), for the parser
    named by the sub-command path [prog]. *)
Record ArgparseMessage := {
  msg_prog : list string;
  msg_stop : Stop
}.

(** What the process has done so far.  [engine_calls] lists the calls of
    [auto_project_strikeouts] with their arguments. *)
Record World := {
  stdout : list string;
  log : list LogRecord;
  logging_config : option LogConfig;
  argparse_output : list ArgparseMessage;
  engine_calls : list (PyValue * PyValue * PyValue)
}.

(** A computation that may change the world and may raise. *)
Definition Eff (A : Type) : Type := World -> PyResult A * World.

#[export] Instance Eff_ret : MRet Eff := fun A a w => (Return a, w).
#[export] Instance Eff_bind : MBind Eff := fun A B f m w =>
  match m w with
  | (Return a, w') => f a w'
  | (Raise e, w') => (Raise e, w')
  end.

(** A pure evaluation inside an effectful computation. *)
Definition lift {A : Type} (r : PyResult A) : Eff A := fun w => (r, w).

(** [try: body except C1 as e: h1(e) except C2 as e: h2(e) ...]: each
    clause is a class test with its handler; the first clause whose class
    the exception is an instance of handles it, and what a handler raises
    leaves the statement. *)
Fixpoint find_handler {A : Type} (clauses : list ((PyExc -> bool) * (PyExc -> Eff A)))
    (e : PyExc) : option (Eff A) :=
  match clauses with
  | [] => None
  | (catches, handler) :: clauses' =>
    if catches e then Some (handler e) else find_handler clauses' e
  end.

Definition try_except {A : Type} (body : Eff A)
    (clauses : list ((PyExc -> bool) * (PyExc -> Eff A))) : Eff A := fun w =>
  match body w with
  | (Return a, w') => (Return a, w')
  | (Raise e, w') =>
    match find_handler clauses e with
    | Some handler => handler w'
    | None => (Raise e, w')
    end
  end.

(** The world after one more line on standard output. *)
Definition write_stdout (s : string) (w : World) : World :=
  {| stdout := stdout w ++ [s]; log := log w;
     logging_config := logging_config w;
     argparse_output := argparse_output w;
     engine_calls := engine_calls w |}.

(** The world after the root logger is configured, which has no effect on
    a logger that is configured already. *)
Definition configure_logging (c : LogConfig) (w : World) : World :=
  {| stdout := stdout w; log := log w;
     logging_config :=
       match logging_config w with
       | None => Some c
       | Some c' => Some c'
       end;
     argparse_output := argparse_output w;
     engine_calls := engine_calls w |}.

(** The world after a record is handed to the root logger. *)
Definition emit (r : LogRecord) (w : World) : World :=
  {| stdout := stdout w; log := log w ++ [r];
     logging_config := logging_config w;
     argparse_output := argparse_output w;
     engine_calls := engine_calls w |}.

(** The world after argparse has written a message. *)
Definition write_argparse (m : ArgparseMessage) (w : World) : World :=
  {| stdout := stdout w; log := log w;
     logging_config := logging_config w;
     argparse_output := argparse_output w ++ [m];
     engine_calls := engine_calls w |}.

(** The world after one more call of the projection engine. *)
Definition record_call (call : PyValue * PyValue * PyValue) (w : World) : World :=
  {| stdout := stdout w; log := log w;
     logging_config := logging_config w;
     argparse_output := argparse_output w;
     engine_calls := engine_calls w ++ [call] |}.

(** [print(s)].  Standard output encodes what is written to it, and
    raises [UnicodeEncodeError] for a text its encoding cannot encode (the
    warning of [format_result] starts with U+26A0 U+FE0F, which ASCII,
    Latin-1 and cp1252 do not have); nothing of the text is written then.
    [stdout_rejects s] is the message of that error, if [s] cannot be
    encoded.  A closed or broken standard output is not modelled. *)
Definition print (stdout_rejects : string -> option string) (s : string)
  : Eff unit := fun w =>
  match stdout_rejects s with
  | None => (Return tt, write_stdout s w)
  | Some msg => (Raise (Exc UnicodeEncodeError msg), w)
  end.

(** [logging.basicConfig(level=lvl, format=fmt)] *)
Definition logging_basicConfig (lvl : Level) (fmt : string) : Eff unit := fun w =>
  (Return tt, configure_logging {| level := lvl; format := fmt |} w).

(** The configuration [logging.basicConfig()] installs without arguments. *)
Definition DEFAULT_CONFIG : LogConfig :=
  {| level := WARNING; format := "%(levelname)s:%(name)s:%(message)s" |}.

(** [logging.error(msg)]: the root logger is given the default
    configuration if it has none, and a record of level [ERROR] is handed
    to it. *)
Definition logging_error (msg : string) : Eff unit := fun w =>
  (Return tt,
   emit {| levelname := ERROR; message := msg |}
        (configure_logging DEFAULT_CONFIG w)).

(** [exit(code)] *)
Definition builtin_exit {A : Type} (code : Z) : Eff A := fun w =>
  (Raise (SystemExit (Some code)), w).

(** [getattr(ns, name)] on a namespace *)
Definition getattr (ns : Namespace) (name : string) : PyResult PyValue :=
  match ns !! name with
  | Some v => Return v
  | None =>
    Raise (Exc AttributeError
             ("'Namespace' object has no attribute " +:+ repr_plain name))
  end.

(** The double nearest to the literal [7.3]. *)
Definition float_7_3 : spec_float := S754_finite false 8219069319951155 (-50).

Section Cli.

(** [repr] of a float (the shortest digit string that reads back as the
    same double) is the interpreter's; it is only used to print the float
    fields that carry no format specification. *)
Variable float_repr : spec_float -> string.

(** [repr] of a str (its quotes and escapes) is the interpreter's too; it
    is only used to print the items of a list. *)
Variable str_repr : string -> string.

(** [format(v, '')], what a replacement field [{v}] of an f-string
    produces: [str(v)]. *)
Definition format_plain (v : PyValue) : PyResult string :=
  match v with
  | PyNone => Return "None"
  | PyBool b => Return (if b then "True" else "False")
  | PyInt n => int_str n
  | PyFloat f => Return (float_repr f)
  | PyStr s => Return s
  | PyList items => Return ("[" +:+ join ", " (map str_repr items) +:+ "]")
  end.

(** ** [format_result] *)

Definition NO_PROJECTION : string := "⚠️ No projection available".

(** [if not result:] is taken by [None] and by the empty dict, both falsy. *)
Definition format_result (result : option Dict) : PyResult string :=
  match result with
  | None => Return NO_PROJECTION
  | Some d =>
    if Nat.eqb (size d) 0 then Return NO_PROJECTION
    else
      pitcher ← getitem d "pitcher";
      pitcher ← format_plain pitcher;
      opponent ← getitem d "opponent";
      opponent ← format_plain opponent;
      let header := newline +:+ "=== " +:+ pitcher +:+ " vs " +:+ opponent +:+ " ===" in
      mean ← getitem d "mean";
      mean_1f ← format_1f mean;
      vegas ← format_plain (get d "vegas_line" (PyStr "N/A"));
      edge ← format_plain (get d "edge" (PyStr "N/A"));
      prob_1f ← format_1f (get d "prob_over_6.5" (PyInt 0));
      lineup ← format_plain (get d "lineup_source" (PyStr "Lineup source unknown"));
      Return (join newline
        [ header;
          "Projected Ks: " +:+ mean_1f;
          "Vegas Line: " +:+ vegas;
          "Edge: " +:+ edge;
          "Over 6.5 Probability: " +:+ prob_1f +:+ "%";
          "Key Stats: " +:+ lineup ])
  end.

(** ** [run_prediction] *)

(** The projection engine of [k_model], which is not part of cli.py: given
    pitcher, opponent and park it returns a result mapping or [None], or
    raises, and may do anything to the world meanwhile. *)
Variable auto_project_strikeouts : PyValue -> PyValue -> PyValue -> Eff (option Dict).

(** [_negative_number_matcher] of argparse, see [Argparse.parse_optional]. *)
Variable negative_number : string -> bool.

(** What the encoding of standard output cannot encode, see [print]. *)
Variable stdout_rejects : string -> option string.

(** [await auto_project_strikeouts(pitcher, opponent, park)]; the call is
    recorded in [engine_calls]. *)
Definition await_engine (pitcher opponent park : PyValue) : Eff (option Dict) := fun w =>
  auto_project_strikeouts pitcher opponent park
    (record_call (pitcher, opponent, park) w).

Definition run_prediction (pitcher opponent park : PyValue) : Eff (option Dict) :=
  try_except
    (await_engine pitcher opponent park)
    [ (isinstance_Exception,
       fun e =>
         _ ← logging_error ("Prediction failed: " +:+ exc_str e);
         mret None) ].

(** ** [main] *)

(** [parser.parse_args()] in the process: when argparse stops, its message
    is written and [SystemExit] is raised with status 0 (help) or 2
    (error). *)
Definition parser_parse_args (p : ArgumentParser) (argv : list string) : Eff Namespace :=
  fun w =>
  match parse_args negative_number p argv with
  | Done ns => (Return ns, w)
  | Halt prog s =>
    (Raise (SystemExit (Some (stop_status s))),
     write_argparse {| msg_prog := prog; msg_stop := s |} w)
  end.

Definition LOG_FORMAT : string := "%(levelname)s: %(message)s".

(** [argv] is [sys.argv[1:]]. *)
Definition main (argv : list string) : Eff unit :=
  let parser := setup_parser in
  args ← parser_parse_args parser argv;
  debug ← lift (getattr args "debug");
  _ ← logging_basicConfig (if truthy debug then DEBUG else INFO) LOG_FORMAT;
  command ← lift (getattr args "command");
  if eq_str command "predict" then
    pitcher ← lift (getattr args "pitcher");
    opponent ← lift (getattr args "opponent");
    park ← lift (getattr args "park");
    result ← run_prediction pitcher opponent park;
    text ← lift (format_result result);
    print stdout_rejects text
  else mret tt.

(** ** The [__main__] block *)

(** [asyncio.run(coro)] runs the coroutine to completion; what it raises
    comes out of [asyncio.run]. *)
Definition asyncio_run {A : Type} (coro : Eff A) : Eff A := coro.

Definition CANCELLED : string := newline +:+ "Operation cancelled by user".

Definition dunder_main (argv : list string) : Eff unit :=
  try_except
    (asyncio_run (main argv))
    [ (isinstance_KeyboardInterrupt, fun _ => print stdout_rejects CANCELLED);
      (isinstance_Exception,
       fun e =>
         _ ← logging_error ("Fatal error: " +:+ exc_str e);
         builtin_exit 1) ].

(** The status [exit(code)] leaves on Linux: the interpreter converts the
    code to a C [long] (-1 when it does not fit), and the operating system
    keeps the low eight bits. *)
Definition status_of_code (code : Z) : Z :=
  if (- 2 ^ 63 <=? code) && (code <? 2 ^ 63) then code mod 256 else 255.

(** The exit status of the interpreter: 0 when the script ends, the status
    of the code of an uncaught [SystemExit] (0 for [None]), and 1 for any
    other uncaught exception, after its traceback.  An uncaught
    [KeyboardInterrupt] ends the interpreter by the interrupt signal, which
    a shell reports as 130; it never gets here uncaught, since the
    [__main__] block catches it. *)
Definition exit_status (r : PyResult unit) : Z :=
  match r with
  | Return _ => 0
  | Raise (SystemExit None) => 0
  | Raise (SystemExit (Some code)) => status_of_code code
  | Raise (Exc KeyboardInterrupt _) => 130
  | Raise (Exc _ _) => 1
  end.

(** Running [python cli.py argv...] from the world [w]: the final world
    and the exit status. *)
Definition run_process (argv : list string) (w : World) : World * Z :=
  let '(r, w') := dunder_main argv w in (w', exit_status r).

End Cli.

(** The world a process starts in. *)
Definition initial_world : World :=
  {| stdout := []; log := []; logging_config := None; argparse_output := [];
     engine_calls := [] |}.

(** ** Vocabulary of the statements *)

(** The lines of a text: its pieces between newline characters. *)
Fixpoint lines (s : string) : list string :=
  match s with
  | EmptyString => [EmptyString]
  | String c s' =>
    if Ascii.eqb c "010"%char then EmptyString :: lines s'
    else match lines s' with
         | l :: ls => String c l :: ls
         | [] => [String c EmptyString]
         end
  end.

(** [needle] occurs in [text]. *)
Definition occurs_in (needle text : string) : Prop :=
  exists before after, text = before +:+ needle +:+ after.

(** The values the [.1f] format accepts: floats, bools, and the ints that
    [float()] converts. *)
Definition is_number (v : PyValue) : bool :=
  match v with
  | PyFloat _ | PyBool _ => true
  | PyInt n =>
    match float_of_int n with
    | Return _ => true
    | Raise _ => false
    end
  | PyStr _ | PyNone | PyList _ => false
  end.

(** The values [str()] converts: every value but an int of more than 4300
    digits. *)
Definition has_str (v : PyValue) : bool :=
  match v with
  | PyInt n => Z.abs n <? 10 ^ INT_MAX_STR_DIGITS
  | _ => true
  end.

(** The [dest] of the option of the table [table] that the argument
    string [arg] stands for, exactly, with [=value], or abbreviated. *)
Definition option_dest (negative_number : string -> bool)
    (table : list (string * Action)) (arg : string) : option string :=
  match parse_optional negative_number [] table arg with
  | Done (Some (Some a, _, _)) => Some (dest a)
  | _ => None
  end.

(** The argument strings before the first [--]: after it, argparse takes
    every string for an argument, none for an option. *)
Fixpoint before_separator (argv : list string) : list string :=
  match argv with
  | [] => []
  | arg :: argv' =>
    if String.eqb arg "--" then [] else arg :: before_separator argv'
  end.

(** Some argument string of [argv], before the first [--], stands for the
    option [d] of the [predict] sub-command. *)
Definition supplied (negative_number : string -> bool) (d : string)
    (argv : list string) : bool :=
  existsb (fun arg =>
             bool_decide
               (option_dest negative_number
                  predict_table arg = Some d))
          (before_separator argv).

(** Some argument string of [argv], before the first [--], stands for the
    help option, of the top-level parser or of the [predict] sub-command. *)
Definition asks_help (negative_number : string -> bool) (argv : list string) : bool :=
  existsb (fun arg =>
             bool_decide
               (option_dest negative_number top_table arg = Some "help"))
          (before_separator argv)
  || supplied negative_number "help" argv.

(** The logging configuration [main] asks for. *)
Definition main_config (debug : PyValue) : LogConfig :=
  {| level := if truthy debug then DEBUG else INFO; format := LOG_FORMAT |}.

(** *** Stand-ins for the parts taken as given *)

(** An engine that raises [e] whatever it is called with. *)
Definition engine_raising (e : PyExc) : PyValue -> PyValue -> PyValue -> Eff (option Dict) :=
  fun _ _ _ w => (Raise e, w).

(** An engine that returns [r] whatever it is called with. *)
Definition engine_returning (r : option Dict) : PyValue -> PyValue -> PyValue -> Eff (option Dict) :=
  fun _ _ _ w => (Return r, w).

Definition is_digit (c : ascii) : bool :=
  (48 <=? nat_of_ascii c)%nat && (nat_of_ascii c <=? 57)%nat.

Fixpoint all_digits (s : string) : bool :=
  match s with
  | EmptyString => true
  | String c s' => is_digit c && all_digits s'
  end.

Fixpoint digits_dot_digits (s : string) : bool :=
  match s with
  | EmptyString => false
  | String c s' =>
    if Ascii.eqb c "."%char then negb (String.eqb s' "") && all_digits s'
    else is_digit c && digits_dot_digits s'
  end.

(** The string without the newline at its end, if it has one: [$] in a
    regular expression also matches just before it. *)
Fixpoint before_final_newline (s : string) : string :=
  match s with
  | EmptyString => EmptyString
  | String c s' =>
    if Ascii.eqb c "010"%char && String.eqb s' "" then EmptyString
    else String c (before_final_newline s')
  end.

(** The negative-number matcher of argparse, ['^-\d+$|^-\d*\.\d+$'], on
    ASCII strings: [-] followed by digits, or by digits, a dot and digits,
    and then possibly one newline.  (In Python [\d] also matches the
    decimal digits of other scripts; the stand-in is exact on ASCII strings
    only, and is used on no other.) *)
Definition ascii_negative_number (s : string) : bool :=
  match before_final_newline s with
  | String c s' =>
    Ascii.eqb c "-"%char
    && ((negb (String.eqb s' "") && all_digits s') || digits_dot_digits s')
  | EmptyString => false
  end.

(** A float [repr] that prints the binary fraction: enough to run the
    definitions, which is all the stand-in is for. *)
Definition binary_repr (f : spec_float) : string :=
  match f with
  | S754_nan => "nan"
  | S754_infinity s => if s then "-inf" else "inf"
  | S754_zero s => if s then "-0.0" else "0.0"
  | S754_finite s m e =>
    (if s then "-" else "") +:+ str_of_Z (Z.pos m) +:+ "*2**" +:+ str_of_Z e
  end.

(** A [repr] of str that puts the string between single quotes, which is
    what Python does for printable ASCII without quote or backslash; the
    stand-in is used on no other string. *)
Definition quoted_repr (s : string) : string := repr_plain s.

(** A standard output that encodes every text, as with UTF-8. *)
Definition utf8_stdout (s : string) : option string := None.

Fixpoint is_ascii (s : string) : bool :=
  match s with
  | EmptyString => true
  | String c s' => (nat_of_ascii c <? 128)%nat && is_ascii s'
  end.

(** A standard output with the ASCII encoding.  The message is the one
    Python gives when the first two characters of the text, and these
    only, are outside ASCII, as in the warning of [format_result]; the
    stand-in is used on no other text outside ASCII. *)
Definition ascii_stdout (s : string) : option string :=
  if is_ascii s then None
  else Some ("'ascii' codec can't encode characters in position 0-1: "
             +:+ "ordinal not in range(128)").

(** *** What the [predict] parser does to its state *)

(** The five actions of the [predict] parser. *)
Definition pitcher_action : Action :=
  {| option_strings := ["--pitcher"]; dest := "pitcher"; kind := Store;
     required := true; default := Some PyNone |}.
Definition opponent_action : Action :=
  {| option_strings := ["--opponent"]; dest := "opponent"; kind := Store;
     required := true; default := Some PyNone |}.
Definition park_action : Action :=
  {| option_strings := ["--park"]; dest := "park"; kind := Store;
     required := false; default := Some (PyStr "") |}.
Definition debug_action : Action :=
  {| option_strings := ["--debug"]; dest := "debug"; kind := StoreTrue;
     required := false; default := Some (PyBool false) |}.

(** The state after a [store] action has stored the argument string [v]
    under [d] (the string itself, unless it is [--]), and after a
    [store_true] action has set [d]. *)
Definition stored (d v : string) (st : State) : State :=
  {| namespace := <[d := get_values [v]]> (namespace st);
     seen_actions := seen_actions st ++ [d];
     extras := extras st |}.

Definition flagged (d : string) (st : State) : State :=
  {| namespace := <[d := PyBool true]> (namespace st);
     seen_actions := seen_actions st ++ [d];
     extras := extras st |}.

(** The token is an option whose action has [dest] [d]. *)
Definition token_dest (d : string) (t : Token) : Prop :=
  match t with
  | TOpt _ (Some a) _ _ => dest a = d
  | _ => False
  end.

(** The token came out of [classify] for the table [table]: an option
    token is not the separator, and its action is the one of the table that
    its string stands for. *)
Definition token_ok (negative_number : string -> bool)
    (table : list (string * Action)) (t : Token) : Prop :=
  match t with
  | TOpt raw (Some a) s _ =>
    raw <> "--"
    /\ (s, a) ∈ table /\ option_dest negative_number table raw = Some (dest a)
  | TOpt raw None _ _ => raw <> "--"
  | _ => True
  end.

(** The token stores no [--]: it is an argument other than [--], or an
    option whose explicit argument, if it has one to store, is not [--]. *)
Definition token_plain (t : Token) : Prop :=
  match t with
  | TArg v => v <> "--"
  | TOpt _ (Some a) _ (Some e) => kind a = Store -> e <> "--"
  | _ => True
  end.

(** No attribute of the namespace is a list. *)
Definition no_list (ns : Namespace) : Prop :=
  forall d items, ns !! d <> Some (PyList items).

(** What a [store] action stores: the argument string, or the empty list
    when the argument string is [--]. *)
Definition argument_value (v : PyValue) : Prop :=
  (exists s, v = PyStr s) \/ v = PyList [].

(** What the namespace of the [predict] parser always satisfies: [park]
    is the value of an argument and [debug] a bool; [pitcher] and
    [opponent] are values of arguments once their options have been seen;
    and [command] is not set there. *)
Definition well_typed (st : State) : Prop :=
  (exists k, namespace st !! "park" = Some k /\ argument_value k)
  /\ (exists b, namespace st !! "debug" = Some (PyBool b))
  /\ (forall d, d ∈ ["pitcher"; "opponent"] -> d ∈ seen_actions st ->
      exists v, namespace st !! d = Some v /\ argument_value v)
  /\ namespace st !! "command" = None.

(** The state the [predict] parser starts from: the defaults. *)
Definition predict_start : State :=
  {| namespace := add_defaults (actions predict_parser) ∅;
     seen_actions := []; extras := [] |}.

(** The runs of the consuming loop of the [predict] parser that do not
    stop the process: every step stores the argument of a [store] option
    (given with [=] or as the next string), sets a flag, or puts a string
    that is no known option among the extras. *)
Inductive steps : list Token -> State -> State -> Prop :=
| steps_nil st :
    steps [] st st
| steps_extra t toks st st' :
    (forall d, ~ token_dest d t) ->
    steps toks (add_extra (raw_string t) st) st' ->
    steps (t :: toks) st st'
| steps_store_explicit raw a s v toks st st' :
    (s, a) ∈ predict_table -> kind a = Store ->
    steps toks (stored (dest a) v st) st' ->
    steps (TOpt raw (Some a) s (Some v) :: toks) st st'
| steps_store_next raw a s v toks st st' :
    (s, a) ∈ predict_table -> kind a = Store ->
    steps toks (stored (dest a) v st) st' ->
    steps (TOpt raw (Some a) s None :: TArg v :: toks) st st'
| steps_flag raw a s toks st st' :
    (s, a) ∈ predict_table -> kind a = StoreTrue ->
    steps toks (flagged (dest a) st) st' ->
    steps (TOpt raw (Some a) s None :: toks) st st'.

(** *** Argument strings *)

(** The string does not start with a dash: argparse takes it for an
    argument, never for an option. *)
Definition no_dash (s : string) : bool :=
  match s with
  | EmptyString => true
  | String c _ => negb (is_dash c)
  end.

(** [flag=value], an option given with its explicit argument. *)
Definition with_value (flag value : string) : string := flag +:+ "=" +:+ value.

(** [s] is a prefix of the option string [flag] of the [predict] parser
    and of no other: an abbreviation of [flag], or [flag] itself. *)
Definition abbreviates (s flag : string) : bool :=
  String.prefix s flag
  && forallb (fun '(flag', _) => String.eqb flag' flag || negb (String.prefix s flag'))
       predict_table.

(** The [predict] parser consumes the argument strings without stopping:
    no ambiguous abbreviation, no option without its argument, no help
    option.  (Required arguments may still be missing, and strings may be
    left over; both are found out later.) *)
Definition consumed (negative_number : string -> bool) (args : list string) : bool :=
  match classify negative_number [] predict_table args with
  | Done toks =>
    match consume [] predict_table toks predict_start with
    | Done _ => true
    | Halt _ _ => false
    end
  | Halt _ _ => false
  end.

(** No argument string is an ambiguous abbreviation of an option of the
    [predict] parser. *)
Definition unambiguous (negative_number : string -> bool) (args : list string) : bool :=
  match classify negative_number [] predict_table args with
  | Done _ => true
  | Halt _ _ => false
  end.

(** A help option runs before anything stops the parsers: [-h] or [--help]
    is the first argument string; or it follows [predict] and arguments
    that the [predict] parser consumes, with no ambiguous abbreviation
    after it. *)
Definition help_runs_first (negative_number : string -> bool)
    (argv : list string) : Prop :=
  (exists flag rest, argv = flag :: rest /\ flag ∈ ["-h"; "--help"])
  \/ (exists pre flag post,
        argv = "predict" :: pre ++ flag :: post
        /\ flag ∈ ["-h"; "--help"]
        /\ ("--" ∉ pre)
        /\ consumed negative_number pre = true
        /\ unambiguous negative_number post = true).

(** The argument string gives [--] as the explicit argument of an option,
    as in [--park=--]: the option then gets the empty list, not a string
    (see [get_values]). *)
Definition separator_value (arg : string) : bool :=
  match split_eq arg with
  | Some (_, value) => String.eqb value "--"
  | None => false
  end.

Definition no_separator_value (argv : list string) : bool :=
  forallb (fun arg => negb (separator_value arg)) argv.

(** * Properties *)

(** ** Tactics *)

(** Unfolds the binds and returns of the three monads. *)
Ltac unfold_monads :=
  unfold mbind, mret, PyResult_bind, PyResult_ret, Eff_bind, Eff_ret,
    Outcome_bind, Outcome_ret in *.

(** Closes an equation whose sides evaluate to the same value. *)
Ltac by_evaluation :=
  lazymatch goal with
  | |- @eq ?T _ ?r => vm_cast_no_check (@eq_refl T r)
  end.

(** ** [format_result] *)

Section FormatResult.

Variable float_repr : spec_float -> string.
Variable str_repr : string -> string.

Lemma getitem_Some (d : Dict) k v : d !! k = Some v -> getitem d k = Return v.
Proof. intros H. unfold getitem. by rewrite H. Qed.

Lemma getitem_None (d : Dict) k :
  d !! k = None -> getitem d k = Raise (Exc KeyError (repr_plain k)).
Proof. intros H. unfold getitem. by rewrite H. Qed.

Lemma get_Some (d : Dict) k v dflt : d !! k = Some v -> get d k dflt = v.
Proof. intros H. unfold get. by rewrite H. Qed.

Lemma get_None (d : Dict) k dflt : d !! k = None -> get d k dflt = dflt.
Proof. intros H. unfold get. by rewrite H. Qed.

Lemma size_eqb_nonempty (d : Dict) : d ≠ ∅ -> Nat.eqb (size d) 0 = false.
Proof.
  intros Hne. apply Nat.eqb_neq. intros Hsize.
  by apply Hne, map_size_empty_iff.
Qed.

Lemma lookup_nonempty (d : Dict) k v : d !! k = Some v -> d ≠ ∅.
Proof. intros H ->. by rewrite lookup_empty in H. Qed.

(** A number is formatted by [.1f] without an error. *)
Lemma format_1f_number v : is_number v = true -> exists s, format_1f v = Return s.
Proof.
  destruct v as [ | b | n | f | s | items ]; simpl; try discriminate; intros H.
  - destruct b; vm_compute; eauto.
  - unfold_monads. destruct (float_of_int n); [eauto | discriminate].
  - eauto.
Qed.

(** [str()] converts a value exactly when it is not an int of more than
    4300 digits; the error is a [ValueError]. *)
Lemma format_plain_has_str v :
  has_str v = true -> exists s, format_plain float_repr str_repr v = Return s.
Proof.
  destruct v as [ | b | n | f | s | items ]; unfold has_str, format_plain, int_str;
    intros H; rewrite ?H; eauto.
Qed.

Lemma format_plain_Return v s :
  format_plain float_repr str_repr v = Return s -> has_str v = true.
Proof.
  destruct v as [ | b | n | f | t | items ]; unfold has_str, format_plain, int_str;
    try done.
  by destruct (Z.abs n <? _).
Qed.

Lemma format_plain_Raise v e :
  format_plain float_repr str_repr v = Raise e ->
  has_str v = false /\ exists msg, e = Exc ValueError msg.
Proof.
  destruct v as [ | b | n | f | t | items ]; unfold has_str, format_plain, int_str;
    try done.
  destruct (Z.abs n <? _); [ done | ]. intros [= <-]. eauto.
Qed.

Lemma format_plain_str s : format_plain float_repr str_repr (PyStr s) = Return s.
Proof. reflexivity. Qed.

(** [float_7_3] is within half a unit in the last place of 7.3, i.e. it
    is the double the literal [7.3] denotes; it is the quotient of 73.0 by
    10.0, and [.1f] prints it as 7.3. *)
Lemma float_7_3_nearest :
  2 * Z.abs (10 * 8219069319951155 - 73 * 2 ^ 50) <= 10
  /\ SFdiv 53 1024 (binary_normalize 53 1024 73 0 false)
                   (binary_normalize 53 1024 10 0 false) = float_7_3
  /\ float_format_1f float_7_3 = "7.3".
Proof. repeat split; vm_compute; discriminate. Qed.

(** C8: a present but empty mapping gets the same fixed warning text as an
    absent result; the test is on falsiness, so the empty mapping never
    reaches the field formatting (which would raise [KeyError]). *)
Theorem format_result_empty_mapping :
  format_result float_repr str_repr (Some ∅) = Return "⚠️ No projection available"
  /\ format_result float_repr str_repr (Some ∅) = format_result float_repr str_repr None
  /\ getitem (∅ : Dict) "pitcher" = Raise (Exc KeyError "'pitcher'").
Proof. repeat split. Qed.

(** C9: on a non-empty mapping that lacks [pitcher], [opponent] or [mean],
    [format_result] raises, and no default is substituted for a required
    key.  When [pitcher] and [opponent], where present, are values that
    [str()] converts (strings, as the result has them), the exception is
    the [KeyError] for one of the three keys, which is missing. *)
Theorem format_result_missing_required_key (d : Dict) :
  d ≠ ∅ ->
  d !! "pitcher" = None \/ d !! "opponent" = None \/ d !! "mean" = None ->
  (exists e, format_result float_repr str_repr (Some d) = Raise e)
  /\ ((forall k v, k ∈ ["pitcher"; "opponent"] -> d !! k = Some v ->
       has_str v = true) ->
      exists k,
        k ∈ ["pitcher"; "opponent"; "mean"]
        /\ d !! k = None
        /\ format_result float_repr str_repr (Some d)
           = Raise (Exc KeyError (repr_plain k))).
Proof.
  intros Hne Hmissing. unfold format_result.
  rewrite (size_eqb_nonempty _ Hne). unfold_monads.
  destruct (d !! "pitcher") as [pitcher|] eqn:Hp.
  - rewrite (getitem_Some _ _ _ Hp).
    destruct (format_plain float_repr str_repr pitcher) as [ pitcher_s | e ]
      eqn:Hpitcher.
    + destruct (d !! "opponent") as [opponent|] eqn:Ho.
      * rewrite (getitem_Some _ _ _ Ho).
        destruct (format_plain float_repr str_repr opponent) as [ opponent_s | e ]
          eqn:Hopponent.
        -- destruct (d !! "mean") as [mean|] eqn:Hm.
           { destruct Hmissing as [? | [? | ?]]; discriminate. }
           rewrite (getitem_None _ _ Hm). split; [ eauto | ].
           intros _. exists "mean".
           split; [ rewrite !elem_of_cons; auto | done ].
        -- split; [ eauto | ]. intros Hstr. exfalso.
           apply format_plain_Raise in Hopponent as [Hno _].
           rewrite (Hstr "opponent" opponent) in Hno;
             [ done | rewrite !elem_of_cons; auto | done ].
      * rewrite (getitem_None _ _ Ho). split; [ eauto | ].
        intros _. exists "opponent".
        split; [ rewrite !elem_of_cons; auto | done ].
    + split; [ eauto | ]. intros Hstr. exfalso.
      apply format_plain_Raise in Hpitcher as [Hno _].
      rewrite (Hstr "pitcher" pitcher) in Hno;
        [ done | rewrite !elem_of_cons; auto | done ].
  - rewrite (getitem_None _ _ Hp). split; [ eauto | ].
    intros _. exists "pitcher".
    split; [ rewrite !elem_of_cons; auto | done ].
Qed.

(** C4: the mapping with pitcher "Paul Skenes", opponent "PHI", mean 7.3
    and no optional key is formatted as the block whose lines are the
    header, the projected strikeouts 7.3 and the four defaults. *)
Theorem format_result_paul_skenes :
  let result : Dict :=
    {[ "pitcher" := PyStr "Paul Skenes"; "opponent" := PyStr "PHI";
       "mean" := PyFloat float_7_3 ]} in
  exists block,
    format_result float_repr str_repr (Some result) = Return block
    /\ block = join newline
         [ ""; "=== Paul Skenes vs PHI ==="; "Projected Ks: 7.3";
           "Vegas Line: N/A"; "Edge: N/A"; "Over 6.5 Probability: 0.0%";
           "Key Stats: Lineup source unknown" ]
    /\ Forall (fun l => l ∈ lines block)
         [ "=== Paul Skenes vs PHI ==="; "Projected Ks: 7.3";
           "Vegas Line: N/A"; "Edge: N/A"; "Over 6.5 Probability: 0.0%";
           "Key Stats: Lineup source unknown" ].
Proof.
  intros result. eexists. split; [ | split ].
  - vm_compute. reflexivity.
  - vm_compute. reflexivity.
  - vm_compute lines. repeat constructor.
Qed.

(** What a plain field shows: the value as [str()] converts it, or the
    default when the key is missing. *)
Lemma format_plain_get (d : Dict) k dflt :
  (forall v, d !! k = Some v -> has_str v = true) ->
  exists s,
    format_plain float_repr str_repr (get d k (PyStr dflt)) = Return s
    /\ (d !! k = None -> s = dflt)
    /\ (forall v, d !! k = Some v -> format_plain float_repr str_repr v = Return s).
Proof.
  intros Hstr. unfold get. destruct (d !! k) as [v|].
  - destruct (format_plain_has_str v (Hstr v eq_refl)) as [s Hs].
    exists s. split; [ done | ]. split; [ done | ]. by intros ? [= <-].
  - exists dflt. split; [ done | ]. split; done.
Qed.

(** C2, as amended: when [pitcher], [opponent] and a numeric [mean] are
    present, [prob_over_6.5] is numeric if present, and the fields that are
    shown as they are hold values that [str()] converts, formatting
    succeeds whichever of the four optional keys are missing, and each
    missing one is replaced by its default: "N/A" for [vegas_line] and
    [edge], 0 shown as "0.0" for [prob_over_6.5], "Lineup source unknown"
    for [lineup_source]. *)
Theorem format_result_optional_defaults (d : Dict) pitcher opponent mean :
  d !! "pitcher" = Some pitcher ->
  d !! "opponent" = Some opponent ->
  d !! "mean" = Some mean ->
  is_number mean = true ->
  (forall p, d !! "prob_over_6.5" = Some p -> is_number p = true) ->
  (forall k v,
     k ∈ ["pitcher"; "opponent"; "vegas_line"; "edge"; "lineup_source"] ->
     d !! k = Some v -> has_str v = true) ->
  exists pitcher_s opponent_s mean_1f vegas edge prob_1f lineup,
    format_plain float_repr str_repr pitcher = Return pitcher_s
    /\ format_plain float_repr str_repr opponent = Return opponent_s
    /\ format_1f mean = Return mean_1f
    /\ format_1f (get d "prob_over_6.5" (PyInt 0)) = Return prob_1f
    /\ (d !! "vegas_line" = None -> vegas = "N/A")
    /\ (forall v, d !! "vegas_line" = Some v ->
        format_plain float_repr str_repr v = Return vegas)
    /\ (d !! "edge" = None -> edge = "N/A")
    /\ (forall v, d !! "edge" = Some v ->
        format_plain float_repr str_repr v = Return edge)
    /\ (d !! "prob_over_6.5" = None -> prob_1f = "0.0")
    /\ (d !! "lineup_source" = None -> lineup = "Lineup source unknown")
    /\ (forall v, d !! "lineup_source" = Some v ->
        format_plain float_repr str_repr v = Return lineup)
    /\ format_result float_repr str_repr (Some d)
       = Return (join newline
           [ newline +:+ "=== " +:+ pitcher_s +:+ " vs " +:+ opponent_s +:+ " ===";
             "Projected Ks: " +:+ mean_1f;
             "Vegas Line: " +:+ vegas;
             "Edge: " +:+ edge;
             "Over 6.5 Probability: " +:+ prob_1f +:+ "%";
             "Key Stats: " +:+ lineup ]).
Proof.
  intros Hp Ho Hm Hmean Hprob Hstr.
  assert (forall k, k ∈ ["pitcher"; "opponent"; "vegas_line"; "edge"; "lineup_source"] ->
                    forall v, d !! k = Some v -> has_str v = true) as Hstr'
    by (intros k Hk v; by apply Hstr).
  destruct (format_plain_has_str pitcher) as [pitcher_s Hpitcher];
    [ apply (Hstr "pitcher"); [ rewrite !elem_of_cons; auto | done ] | ].
  destruct (format_plain_has_str opponent) as [opponent_s Hopponent];
    [ apply (Hstr "opponent"); [ rewrite !elem_of_cons; auto | done ] | ].
  destruct (format_1f_number mean Hmean) as [mean_1f Hmean_1f].
  destruct (format_plain_get d "vegas_line" "N/A") as (vegas & Hvegas & Hv1 & Hv2);
    [ apply Hstr'; rewrite !elem_of_cons; auto 10 | ].
  destruct (format_plain_get d "edge" "N/A") as (edge & Hedge & He1 & He2);
    [ apply Hstr'; rewrite !elem_of_cons; auto 10 | ].
  destruct (format_plain_get d "lineup_source" "Lineup source unknown")
    as (lineup & Hlineup & Hl1 & Hl2);
    [ apply Hstr'; rewrite !elem_of_cons; auto 10 | ].
  assert (exists prob_1f,
             format_1f (get d "prob_over_6.5" (PyInt 0)) = Return prob_1f
             /\ (d !! "prob_over_6.5" = None -> prob_1f = "0.0"))
    as (prob_1f & Hprob_1f & Hzero).
  { unfold get. destruct (d !! "prob_over_6.5") as [p|] eqn:Hlookup.
    - destruct (format_1f_number p (Hprob p eq_refl)) as [s Hs].
      exists s. split; [ done | discriminate ].
    - exists "0.0". split; [ reflexivity | done ]. }
  exists pitcher_s, opponent_s, mean_1f, vegas, edge, prob_1f, lineup.
  repeat split; try done.
  unfold format_result.
  rewrite (size_eqb_nonempty _ (lookup_nonempty _ _ _ Hp)).
  rewrite (getitem_Some _ _ _ Hp), (getitem_Some _ _ _ Ho), (getitem_Some _ _ _ Hm).
  unfold_monads.
  by rewrite Hpitcher, Hopponent, Hmean_1f, Hvegas, Hedge, Hprob_1f, Hlineup.
Qed.

End FormatResult.

Lemma format_result_missing_required_key_witness :
  (exists e,
     format_result binary_repr quoted_repr (Some {[ "pitcher" := PyStr "Paul Skenes" ]})
     = Raise e)
  /\ ((forall k v, k ∈ ["pitcher"; "opponent"] ->
       ({[ "pitcher" := PyStr "Paul Skenes" ]} : Dict) !! k = Some v ->
       has_str v = true) ->
      exists k,
        k ∈ ["pitcher"; "opponent"; "mean"]
        /\ ({[ "pitcher" := PyStr "Paul Skenes" ]} : Dict) !! k = None
        /\ format_result binary_repr quoted_repr
             (Some {[ "pitcher" := PyStr "Paul Skenes" ]})
           = Raise (Exc KeyError (repr_plain k))).
Proof.
  apply (format_result_missing_required_key binary_repr quoted_repr
           {[ "pitcher" := PyStr "Paul Skenes" ]}).
  - intros H. apply (f_equal (fun m : Dict => m !! "pitcher")) in H.
    vm_compute in H. discriminate.
  - right. left. reflexivity.
Defined.

Lemma format_result_optional_defaults_witness :
  let d : Dict :=
    {[ "pitcher" := PyStr "Paul Skenes"; "opponent" := PyStr "PHI";
       "mean" := PyFloat float_7_3; "edge" := PyInt 1 ]} in
  exists pitcher_s opponent_s mean_1f vegas edge prob_1f lineup,
    format_plain binary_repr quoted_repr (PyStr "Paul Skenes") = Return pitcher_s
    /\ format_plain binary_repr quoted_repr (PyStr "PHI") = Return opponent_s
    /\ format_1f (PyFloat float_7_3) = Return mean_1f
    /\ format_1f (get d "prob_over_6.5" (PyInt 0)) = Return prob_1f
    /\ (d !! "vegas_line" = None -> vegas = "N/A")
    /\ (forall v, d !! "vegas_line" = Some v ->
        format_plain binary_repr quoted_repr v = Return vegas)
    /\ (d !! "edge" = None -> edge = "N/A")
    /\ (forall v, d !! "edge" = Some v ->
        format_plain binary_repr quoted_repr v = Return edge)
    /\ (d !! "prob_over_6.5" = None -> prob_1f = "0.0")
    /\ (d !! "lineup_source" = None -> lineup = "Lineup source unknown")
    /\ (forall v, d !! "lineup_source" = Some v ->
        format_plain binary_repr quoted_repr v = Return lineup)
    /\ format_result binary_repr quoted_repr (Some d)
       = Return (join newline
           [ newline +:+ "=== " +:+ pitcher_s +:+ " vs " +:+ opponent_s +:+ " ===";
             "Projected Ks: " +:+ mean_1f;
             "Vegas Line: " +:+ vegas;
             "Edge: " +:+ edge;
             "Over 6.5 Probability: " +:+ prob_1f +:+ "%";
             "Key Stats: " +:+ lineup ]).
Proof.
  intros d.
  apply (format_result_optional_defaults binary_repr quoted_repr d
           (PyStr "Paul Skenes") (PyStr "PHI") (PyFloat float_7_3)).
  - vm_compute. reflexivity.
  - vm_compute. reflexivity.
  - vm_compute. reflexivity.
  - reflexivity.
  - intros p H. vm_compute in H. discriminate.
  - intros k v Hk. rewrite !elem_of_cons, elem_of_nil in Hk.
    destruct Hk as [-> | [-> | [-> | [-> | [-> | []]]]]]; intros H;
      vm_compute in H; try discriminate; injection H as <-; reflexivity.
Defined.

(** C2 as stated fails, also for a result as the data model has it
    (strings for [pitcher] and [opponent], a number for [mean]): a [mean]
    that is an int too large for a float makes [format_result] raise
    [OverflowError]; and so does, with [ValueError], a [prob_over_6.5]
    that is present but is a string.  In both mappings a subset of the
    optional keys is missing, and no default is substituted. *)
Lemma format_result_number_raises :
  let huge : Dict :=
    {[ "pitcher" := PyStr "Paul Skenes"; "opponent" := PyStr "PHI";
       "mean" := PyInt (10 ^ 400) ]} in
  let labelled : Dict :=
    {[ "pitcher" := PyStr "Paul Skenes"; "opponent" := PyStr "PHI";
       "mean" := PyFloat float_7_3; "prob_over_6.5" := PyStr "62%" ]} in
  (forall float_repr str_repr,
     format_result float_repr str_repr (Some huge)
     = Raise (Exc OverflowError "int too large to convert to float"))
  /\ (forall float_repr str_repr,
        format_result float_repr str_repr (Some labelled)
        = Raise (Exc ValueError "Unknown format code 'f' for object of type 'str'")).
Proof.
  intros huge labelled. split; intros float_repr str_repr; vm_compute; reflexivity.
Qed.

(** ** The argument parser *)

Section ArgparseFacts.

Variable negative_number : string -> bool.

Lemma lookup_option_elem_of table s a :
  lookup_option table s = Some a -> (s, a) ∈ table.
Proof.
  induction table as [ | [s' a'] table IH ]; simpl; [ done | ].
  destruct (String.eqb_spec s s') as [-> | Hne]; intros H.
  - injection H as ->. apply elem_of_cons. by left.
  - apply elem_of_cons. right. by apply IH.
Qed.

Lemma get_option_tuples_elem_of table arg t :
  t ∈ get_option_tuples table arg ->
  exists a s e, t = (Some a, s, e) /\ (s, a) ∈ table.
Proof.
  unfold get_option_tuples.
  destruct arg as [ | c0 [ | c1 rest ] ]; try (intros H; by apply elem_of_nil in H).
  destruct (is_dash c1).
  - destruct (split_eq _) as [ [l r] | ]; intros H;
      apply list_elem_of_omap in H as ([s a] & Hin & Heq);
      destruct (String.prefix _ s); simplify_eq; eauto.
  - intros H. apply list_elem_of_omap in H as ([s a] & Hin & Heq).
    destruct (String.eqb s _); [ simplify_eq; eauto | ].
    destruct (String.prefix _ s); simplify_eq; eauto.
Qed.

(** An option that [_parse_optional] recognises is in the table. *)
Lemma parse_optional_elem_of prog table arg a s e :
  parse_optional negative_number prog table arg = Done (Some (Some a, s, e)) ->
  (s, a) ∈ table.
Proof.
  unfold parse_optional. destruct arg as [ | c arg' ]; [ done | ].
  destruct (negb (is_dash c)); [ done | ].
  destruct (lookup_option table (String c arg')) as [a0|] eqn:Hexact.
  { intros H. simplify_eq. by apply lookup_option_elem_of. }
  destruct (Nat.eqb _ 1); [ done | ].
  destruct (split_eq (String c arg')) as [ [l r] | ].
  - destruct (lookup_option table l) as [a0|] eqn:Hl.
    { intros H. simplify_eq. by apply lookup_option_elem_of. }
    destruct (get_option_tuples table (String c arg')) as [ | t [ | t' ts ] ] eqn:Ht;
      [ repeat case_match; intros; simplify_eq | | done ].
    intros H. simplify_eq.
    destruct (get_option_tuples_elem_of table (String c arg') (Some a, s, e))
      as (a' & s' & e' & Heq & Hin); [ rewrite Ht; apply elem_of_cons; by left | ].
    by simplify_eq.
  - destruct (get_option_tuples table (String c arg')) as [ | t [ | t' ts ] ] eqn:Ht;
      [ repeat case_match; intros; simplify_eq | | done ].
    intros H. simplify_eq.
    destruct (get_option_tuples_elem_of table (String c arg') (Some a, s, e))
      as (a' & s' & e' & Heq & Hin); [ rewrite Ht; apply elem_of_cons; by left | ].
    by simplify_eq.
Qed.

(** The explicit argument of an option is what follows the first [=] of
    the argument string, or what follows a single-dash flag. *)
Lemma get_option_tuples_explicit table arg a s e :
  (a, s, Some e) ∈ get_option_tuples table arg ->
  (exists l, split_eq arg = Some (l, e))
  \/ exists c0 c1, arg = String c0 (String c1 e) /\ s = String c0 (String c1 "").
Proof.
  unfold get_option_tuples.
  destruct arg as [ | c0 [ | c1 rest ] ]; try (intros H; by apply elem_of_nil in H).
  destruct (is_dash c1).
  - destruct (split_eq _) as [ [l r] | ]; intros H;
      apply list_elem_of_omap in H as ([s' a'] & Hin & Heq);
      destruct (String.prefix _ s'); simplify_eq; eauto.
  - intros H. apply list_elem_of_omap in H as ([s' a'] & Hin & Heq).
    destruct (String.eqb_spec s' (String c0 (String c1 ""))) as [-> | ];
      [ simplify_eq; right; eauto | ].
    destruct (String.prefix _ s'); simplify_eq.
Qed.

Lemma parse_optional_explicit prog table arg a s e :
  parse_optional negative_number prog table arg = Done (Some (a, s, Some e)) ->
  (exists l, split_eq arg = Some (l, e))
  \/ exists c0 c1, arg = String c0 (String c1 e) /\ s = String c0 (String c1 "").
Proof.
  unfold parse_optional. destruct arg as [ | c arg' ]; [ done | ].
  destruct (negb (is_dash c)); [ done | ].
  destruct (lookup_option table (String c arg')) as [a0|]; [ done | ].
  destruct (Nat.eqb _ 1); [ done | ].
  destruct (split_eq (String c arg')) as [ [l r] | ] eqn:Hsplit.
  - destruct (lookup_option table l) as [a0|].
    { intros H. simplify_eq. eauto. }
    destruct (get_option_tuples table (String c arg')) as [ | t [ | t' ts ] ] eqn:Ht;
      [ repeat case_match; intros; simplify_eq | | done ].
    intros H. simplify_eq. rewrite <- Hsplit.
    apply (get_option_tuples_explicit table (String c arg') a s e).
    rewrite Ht. apply elem_of_cons. by left.
  - destruct (get_option_tuples table (String c arg')) as [ | t [ | t' ts ] ] eqn:Ht;
      [ repeat case_match; intros; simplify_eq | | done ].
    intros H. simplify_eq. rewrite <- Hsplit.
    apply (get_option_tuples_explicit table (String c arg') a s e).
    rewrite Ht. apply elem_of_cons. by left.
Qed.

(** What [_parse_optional] returns does not depend on the parser's name,
    which only labels an error. *)
Lemma parse_optional_prog prog prog' table arg r :
  parse_optional negative_number prog table arg = Done r ->
  parse_optional negative_number prog' table arg = Done r.
Proof.
  unfold parse_optional. repeat case_match; try done.
Qed.

Lemma parse_optional_Halt prog table arg prog' s :
  parse_optional negative_number prog table arg = Halt prog' s ->
  prog' = prog /\ exists e, s = Error e.
Proof.
  unfold parse_optional.
  repeat case_match; try done; intros Heq; simplify_eq; eauto.
Qed.

Lemma map_raw_string_TArg (l : list string) : map raw_string (map TArg l) = l.
Proof. induction l as [ | x l IH ]; simpl; [ done | by rewrite IH ]. Qed.

(** Classification keeps the strings as typed. *)
Lemma classify_raw prog table args toks :
  classify negative_number prog table args = Done toks ->
  map raw_string toks = args.
Proof.
  revert toks. induction args as [ | arg args IH ]; intros toks; simpl.
  - intros H. by simplify_eq.
  - destruct (String.eqb_spec arg "--") as [-> | _].
    + intros H. simplify_eq. simpl. by rewrite map_raw_string_TArg.
    + unfold_monads.
      destruct (parse_optional _ _ _ arg) as [ t | ]; [ | done ].
      destruct (classify _ _ _ args) as [ ts | ]; [ | done ].
      intros H. simplify_eq. simpl. rewrite (IH ts eq_refl).
      by destruct t as [ [ [? ?] ? ] | ].
Qed.

(** Every option token carries an action of the table, the one its
    string stands for. *)
Lemma classify_ok prog table args toks :
  classify negative_number prog table args = Done toks ->
  Forall (token_ok negative_number table) toks.
Proof.
  revert toks. induction args as [ | arg args IH ]; intros toks; simpl.
  - intros H. simplify_eq. constructor.
  - destruct (String.eqb_spec arg "--") as [ | Hsep ].
    + intros H. simplify_eq. constructor; [ done | ].
      apply Forall_forall. intros t Ht.
      apply list_elem_of_fmap in Ht as (x & -> & _). done.
    + unfold_monads.
      destruct (parse_optional _ _ _ arg) as [ t | ] eqn:Hopt; [ | done ].
      destruct (classify _ _ _ args) as [ ts | ]; [ | done ].
      intros H. simplify_eq. constructor; [ | by apply IH ].
      destruct t as [ [ [ [a|] s ] e ] | ]; try done.
      split; [ done | ]. split.
      * eapply parse_optional_elem_of, Hopt.
      * unfold option_dest.
        by rewrite (parse_optional_prog _ [] _ _ _ Hopt).
Qed.

Lemma classify_Halt prog table args prog' s :
  classify negative_number prog table args = Halt prog' s ->
  prog' = prog /\ exists e, s = Error e.
Proof.
  induction args as [ | arg args IH ]; simpl; [ done | ].
  destruct (String.eqb arg "--"); [ done | ].
  unfold_monads.
  destruct (parse_optional _ _ _ arg) as [ t | ] eqn:Hopt.
  - destruct (classify _ _ _ args) as [ ts | ]; [ done | ].
    intros H. simplify_eq. by apply IH.
  - intros H. simplify_eq. by eapply parse_optional_Halt.
Qed.

End ArgparseFacts.

(** *** Consuming an option *)

Lemma match_following_Halt prog a next prog' s :
  match_following prog a next = Halt prog' s ->
  prog' = prog /\ exists e, s = Error e.
Proof.
  unfold match_following. repeat case_match; try done;
    intros Heq; simplify_eq; eauto.
Qed.

(** The explicit argument of an option: the actions to take start with the
    option's own action; only a single-dash flag goes on to other actions;
    and stopping here is an error, never the help. *)
Lemma consume_explicit_spec prog table ex :
  forall a s next acc,
    match consume_explicit prog table a s ex next acc with
    | Done (tuples, took) =>
      exists args rest,
        tuples = acc ++ (a, args) :: rest
        /\ (takes_argument a = true -> args = [ex] /\ rest = [] /\ took = false)
    | Halt prog' stop => prog' = prog /\ exists e, stop = Error e
    end.
Proof.
  induction ex as [ | c ex IH ]; intros a s next acc; simpl.
  - destruct (takes_argument a); [ | eauto ].
    exists [""], []. split; [ done | auto ].
  - destruct (takes_argument a).
    { exists [String c ex], []. split; [ done | auto ]. }
    destruct (single_dash s); [ | eauto ].
    destruct (lookup_option table _) as [a'|]; [ | eauto ].
    destruct ex as [ | c' ex' ].
    + unfold_monads.
      destruct (match_following prog a' next) as [ [args took] | ] eqn:Hnext.
      * exists [], [(a', args)]. split; [ done | intros; done ].
      * by eapply match_following_Halt.
    + specialize (IH a' (String "-"%char (String c EmptyString)) next
                     (acc ++ [(a, [])])).
      destruct (consume_explicit _ _ a' _ (String c' ex') _ _)
        as [ [tuples took] | ]; [ | done ].
      destruct IH as (args & rest & -> & _).
      exists [], ((a', args) :: rest). split; [ by rewrite <- app_assoc | done ].
Qed.

Lemma take_actions_Help prog a args rest st :
  kind a = Help ->
  take_actions prog ((a, args) :: rest) st = Halt prog HelpRequested.
Proof. intros Hkind. simpl. unfold take_action. by rewrite Hkind. Qed.

(** The help action never lets parsing go on: the process stops with the
    help text, or with an error about the option's explicit argument. *)
Lemma consume_optional_Help prog table a s e next st :
  kind a = Help ->
  exists stop, consume_optional prog table a s e next st = Halt prog stop.
Proof.
  intros Hkind. unfold consume_optional.
  assert (takes_argument a = false) as Hnargs
    by (unfold takes_argument; by rewrite Hkind).
  destruct e as [ex|].
  - pose proof (consume_explicit_spec prog table ex a s next []) as Hspec.
    unfold_monads.
    destruct (consume_explicit _ _ _ _ _ _ _) as [ [tuples took] | prog' stop ].
    + destruct Hspec as (args & rest & -> & _). simpl.
      unfold take_action. rewrite Hkind. eauto.
    + destruct Hspec as [-> _]. eauto.
  - unfold match_following. rewrite Hnargs. unfold_monads. simpl.
    unfold take_action. rewrite Hkind. eauto.
Qed.

(** *** The [predict] parser *)

Lemma predict_parser_actions :
  actions predict_parser
  = [help_action; pitcher_action; opponent_action; park_action; debug_action].
Proof. reflexivity. Qed.

Lemma predict_table_eq :
  predict_table
  = [ ("-h", help_action); ("--help", help_action);
      ("--pitcher", pitcher_action); ("--opponent", opponent_action);
      ("--park", park_action); ("--debug", debug_action) ].
Proof. reflexivity. Qed.

Lemma top_table_eq :
  top_table = [ ("-h", help_action); ("--help", help_action) ].
Proof. reflexivity. Qed.

(** Splits a membership in one of the two tables into its cases. *)
Ltac table_cases H :=
  first [ rewrite predict_table_eq in H | rewrite top_table_eq in H ];
  rewrite ?elem_of_cons, elem_of_nil in H;
  repeat (destruct H as [H | H]); [ injection H as -> -> .. | destruct H ].

(** One option of the [predict] parser: a [store] action stores its
    argument, given with [=] or as the next string; [--debug] sets its
    flag; the help action stops with the help; anything else that stops is
    an error. *)
Lemma consume_optional_predict prog s a e next st :
  (s, a) ∈ predict_table ->
  match consume_optional prog predict_table a s e next st with
  | Done (st', took) =>
    (kind a = Store
     /\ exists v, st' = stored (dest a) v st
          /\ ((e = Some v /\ took = false)
              \/ (e = None /\ next = Some (TArg v) /\ took = true)))
    \/ (kind a = StoreTrue /\ e = None /\ took = false
        /\ st' = flagged (dest a) st)
  | Halt prog' HelpRequested => prog' = prog /\ dest a = "help"
  | Halt prog' (Error _) => prog' = prog
  end.
Proof.
  intros Hin. table_cases Hin.
  1, 2:
    match goal with
    | |- context [consume_optional _ _ ?a ?s _ _ _] =>
      destruct (consume_optional_Help prog predict_table a s e next st eq_refl)
        as [stop ->]
    end; by destruct stop.
  1, 2, 3:
    destruct e as [v|];
    [ destruct v; left; (split; [ done | ]); eexists; (split; [ done | left; done ])
    | destruct next as [ [v | | ? ? ? ?] | ]; try done;
      left; (split; [ done | ]); exists v; (split; [ done | right; done ]) ].
  destruct e as [ex|].
  - by destruct ex.
  - right. done.
Qed.

Section PredictParser.

Variable negative_number : string -> bool.

(** The consuming loop of the [predict] parser: a run that goes through
    is a sequence of [steps]; a run that stops with the help met a help
    option; any other stop is an error. *)
Lemma consume_predict_spec prog n :
  forall toks st,
    (length toks <= n)%nat ->
    Forall (token_ok negative_number predict_table) toks ->
    match consume prog predict_table toks st with
    | Done st' => steps toks st st'
    | Halt prog' HelpRequested => prog' = prog /\ Exists (token_dest "help") toks
    | Halt prog' (Error _) => prog' = prog
    end.
Proof.
  induction n as [ | n IH ]; intros toks st Hlen Hok.
  { destruct toks; [ constructor | simpl in Hlen; lia ]. }
  destruct toks as [ | t toks ]; [ constructor | ].
  simpl in Hlen. apply Forall_cons in Hok as [Ht Hok].
  assert (forall st0,
             (forall d, ~ token_dest d t) ->
             match consume prog predict_table toks (add_extra (raw_string t) st0) with
             | Done st' => steps (t :: toks) st0 st'
             | Halt prog' HelpRequested =>
               prog' = prog /\ Exists (token_dest "help") (t :: toks)
             | Halt prog' (Error _) => prog' = prog
             end) as Hextra.
  { intros st0 Hno. specialize (IH toks (add_extra (raw_string t) st0)).
    destruct (consume _ _ toks _) as [ st' | prog' [ | e ] ].
    - apply steps_extra; [ done | ]. apply IH; [ lia | done ].
    - destruct IH as [-> Hex]; [ lia | done | ]. split; [ done | by right ].
    - apply IH; [ lia | done ]. }
  destruct t as [ v | | raw [a|] s e ];
    [ exact (Hextra st (fun d => id)) | exact (Hextra st (fun d => id)) | |
      exact (Hextra st (fun d => id)) ].
  simpl.
  destruct Ht as (_ & Hin & _).
  pose proof (consume_optional_predict prog s a e (head toks) st Hin) as Hstep.
  unfold_monads.
  destruct (consume_optional _ _ a s e _ st) as [ [st1 took] | prog' [ | err ] ].
  - destruct Hstep as [ (Hkind & v & -> & [ [-> ->] | (-> & Hnext & ->) ])
                      | (Hkind & -> & -> & ->) ].
    + specialize (IH toks (stored (dest a) v st)).
      destruct (consume _ _ toks _) as [ st' | prog' [ | err ] ].
      * apply steps_store_explicit; [ done | done | ]. apply IH; [ lia | done ].
      * destruct IH as [-> Hex]; [ lia | done | ]. split; [ done | by right ].
      * apply IH; [ lia | done ].
    + destruct toks as [ | t' toks ]; [ done | ]. simpl in Hnext.
      injection Hnext as ->. simpl in Hlen.
      apply Forall_cons in Hok as [_ Hok].
      specialize (IH toks (stored (dest a) v st)).
      destruct (consume _ _ toks _) as [ st' | prog' [ | err ] ].
      * apply steps_store_next; [ done | done | ]. apply IH; [ lia | done ].
      * destruct IH as [-> Hex]; [ lia | done | ].
        split; [ done | by do 2 right ].
      * apply IH; [ lia | done ].
    + specialize (IH toks (flagged (dest a) st)).
      destruct (consume _ _ toks _) as [ st' | prog' [ | err ] ].
      * apply steps_flag; [ done | done | ]. apply IH; [ lia | done ].
      * destruct IH as [-> Hex]; [ lia | done | ]. split; [ done | by right ].
      * apply IH; [ lia | done ].
  - destruct Hstep as [-> Hhelp]. split; [ done | by left ].
  - done.
Qed.

End PredictParser.
Lemma steps_seen toks st st' :
  steps toks st st' ->
  forall d, d ∈ seen_actions st' ->
            d ∈ seen_actions st \/ Exists (token_dest d) toks.
Proof.
  induction 1 as [ st | t toks st st' Hno _ IH | raw a s v toks st st' Hin Hkind _ IH
                 | raw a s v toks st st' Hin Hkind _ IH
                 | raw a s toks st st' Hin Hkind _ IH ]; intros d Hd.
  - by left.
  - destruct (IH d Hd) as [Hseen | Hex]; [ by left | right; by right ].
  - destruct (IH d Hd) as [Hseen | Hex]; [ | right; by right ].
    simpl in Hseen. apply elem_of_app in Hseen as [Hseen | Hlast]; [ by left | ].
    apply list_elem_of_singleton in Hlast as ->. right. by left.
  - destruct (IH d Hd) as [Hseen | Hex]; [ | right; by do 2 right ].
    simpl in Hseen. apply elem_of_app in Hseen as [Hseen | Hlast]; [ by left | ].
    apply list_elem_of_singleton in Hlast as ->. right. by left.
  - destruct (IH d Hd) as [Hseen | Hex]; [ | right; by right ].
    simpl in Hseen. apply elem_of_app in Hseen as [Hseen | Hlast]; [ by left | ].
    apply list_elem_of_singleton in Hlast as ->. right. by left.
Qed.

(** An option that is not given leaves its attribute as it was. *)
Lemma steps_frame toks st st' :
  steps toks st st' ->
  forall d, ~ Exists (token_dest d) toks ->
            namespace st' !! d = namespace st !! d.
Proof.
  induction 1 as [ st | t toks st st' Hno _ IH | raw a s v toks st st' Hin Hkind _ IH
                 | raw a s v toks st st' Hin Hkind _ IH
                 | raw a s toks st st' Hin Hkind _ IH ]; intros d Hd.
  - done.
  - rewrite IH; [ done | ]. intros Hex. apply Hd. by right.
  - rewrite IH by (intros Hex; apply Hd; by right).
    simpl. apply lookup_insert_ne. intros Heq. apply Hd. by left.
  - rewrite IH by (intros Hex; apply Hd; by do 2 right).
    simpl. apply lookup_insert_ne. intros Heq. apply Hd. by left.
  - rewrite IH by (intros Hex; apply Hd; by right).
    simpl. apply lookup_insert_ne. intros Heq. apply Hd. by left.
Qed.

Lemma get_values_argument_value v : argument_value (get_values [v]).
Proof.
  unfold get_values, remove_separator.
  destruct (String.eqb v "--"); [ by right | left; eauto ].
Qed.

Lemma get_values_string v : v <> "--" -> get_values [v] = PyStr v.
Proof.
  intros Hv. unfold get_values, remove_separator.
  by destruct (String.eqb_spec v "--").
Qed.

Lemma well_typed_stored d v st :
  d ∈ ["pitcher"; "opponent"; "park"] ->
  well_typed st -> well_typed (stored d v st).
Proof.
  intros Hd (Hpark & Hdebug & Hreq & Hcommand).
  rewrite !elem_of_cons, elem_of_nil in Hd.
  unfold well_typed. simpl.
  pose proof (get_values_argument_value v) as Hvalue.
  assert (forall d', d' ∈ ["pitcher"; "opponent"] ->
                     d' ∈ seen_actions st ++ [d] ->
                     exists v0, <[d := get_values [v]]> (namespace st) !! d' = Some v0
                                /\ argument_value v0)
    as Hreq'.
  { intros d' Hd' Hseen.
    destruct (decide (d = d')) as [-> | Hne].
    - exists (get_values [v]). by rewrite lookup_insert_eq.
    - rewrite lookup_insert_ne by done. apply Hreq; [ done | ].
      apply elem_of_app in Hseen as [Hseen | Hlast]; [ done | ].
      apply list_elem_of_singleton in Hlast. congruence. }
  destruct Hd as [-> | [-> | [-> | []]]].
  - rewrite !lookup_insert_ne by done. auto.
  - rewrite !lookup_insert_ne by done. auto.
  - rewrite lookup_insert_eq, !lookup_insert_ne by done. eauto 10.
Qed.

Lemma well_typed_flagged st : well_typed st -> well_typed (flagged "debug" st).
Proof.
  intros (Hpark & Hdebug & Hreq & Hcommand).
  unfold well_typed. simpl.
  rewrite lookup_insert_eq, !lookup_insert_ne by done.
  repeat split; eauto.
  intros d Hd Hseen.
  rewrite !elem_of_cons, elem_of_nil in Hd.
  apply elem_of_app in Hseen as [Hseen | Hlast].
  - destruct Hd as [-> | [-> | []]]; rewrite lookup_insert_ne by done;
      apply Hreq; rewrite ?elem_of_cons; auto.
  - apply list_elem_of_singleton in Hlast as ->.
    destruct Hd as [? | [? | []]]; discriminate.
Qed.

Lemma steps_well_typed toks st st' :
  steps toks st st' -> well_typed st -> well_typed st'.
Proof.
  induction 1 as [ st | t toks st st' Hno _ IH | raw a s v toks st st' Hin Hkind _ IH
                 | raw a s v toks st st' Hin Hkind _ IH
                 | raw a s toks st st' Hin Hkind _ IH ]; intros Hst.
  - done.
  - by apply IH.
  - apply IH. table_cases Hin; try discriminate;
      apply well_typed_stored; rewrite ?elem_of_cons; auto.
  - apply IH. table_cases Hin; try discriminate;
      apply well_typed_stored; rewrite ?elem_of_cons; auto.
  - apply IH. table_cases Hin; try discriminate. by apply well_typed_flagged.
Qed.


Lemma missing_required_nil acts seen a :
  missing_required acts seen = [] ->
  a ∈ acts -> required a = true -> dest a ∈ seen.
Proof.
  intros Hnil Hin Hreq.
  destruct (decide (dest a ∈ seen)) as [ | Hnot ]; [ done | exfalso ].
  assert (In (action_name a) (missing_required acts seen)) as Habs.
  { unfold missing_required. apply in_map, list_elem_of_In, list_elem_of_filter.
    split; [ | done ].
    rewrite Hreq, bool_decide_eq_false_2 by done. done. }
  by rewrite Hnil in Habs.
Qed.

Lemma steps_extras toks st st' :
  steps toks st st' -> (length (extras st) <= length (extras st'))%nat.
Proof.
  induction 1 as [ st | t toks st st' Hno _ IH | raw a s v toks st st' Hin Hkind _ IH
                 | raw a s v toks st st' Hin Hkind _ IH
                 | raw a s toks st st' Hin Hkind _ IH ]; simpl in *; try lia.
  rewrite length_app in IH. simpl in IH. lia.
Qed.

(** A run that leaves no extras has consumed every token: each one is an
    option of the parser, or the argument of the [store] option before
    it. *)
Lemma steps_no_extras toks st st' :
  steps toks st st' -> extras st' = [] ->
  Forall (fun t => match t with
                   | TArg _ | TOpt _ (Some _) _ _ => True
                   | _ => False
                   end) toks.
Proof.
  induction 1 as [ st | t toks st st' Hno Hsteps IH | raw a s v toks st st' Hin Hkind _ IH
                 | raw a s v toks st st' Hin Hkind _ IH
                 | raw a s toks st st' Hin Hkind _ IH ]; intros Hnil.
  - constructor.
  - apply steps_extras in Hsteps. rewrite Hnil in Hsteps. simpl in Hsteps.
    rewrite length_app in Hsteps. simpl in Hsteps. lia.
  - constructor; [ done | by apply IH ].
  - constructor; [ done | ]. constructor; [ done | by apply IH ].
  - constructor; [ done | by apply IH ].
Qed.

(** Once [debug] is set it stays set; and [--debug] sets it. *)
Lemma steps_debug_kept toks st st' :
  steps toks st st' ->
  namespace st !! "debug" = Some (PyBool true) ->
  namespace st' !! "debug" = Some (PyBool true).
Proof.
  induction 1 as [ st | t toks st st' Hno _ IH | raw a s v toks st st' Hin Hkind _ IH
                 | raw a s v toks st st' Hin Hkind _ IH
                 | raw a s toks st st' Hin Hkind _ IH ]; intros Hset.
  - done.
  - by apply IH.
  - apply IH. simpl. table_cases Hin; try discriminate;
      by rewrite lookup_insert_ne.
  - apply IH. simpl. table_cases Hin; try discriminate;
      by rewrite lookup_insert_ne.
  - apply IH. simpl. table_cases Hin; try discriminate. apply lookup_insert_eq.
Qed.

Lemma steps_debug toks st st' :
  steps toks st st' ->
  Exists (token_dest "debug") toks ->
  namespace st' !! "debug" = Some (PyBool true).
Proof.
  induction 1 as [ st | t toks st st' Hno _ IH | raw a s v toks st st' Hin Hkind _ IH
                 | raw a s v toks st st' Hin Hkind _ IH
                 | raw a s toks st st' Hin Hkind Hsteps IH ]; intros Hex.
  - by apply Exists_nil in Hex.
  - apply Exists_cons in Hex as [Hhere | Hex]; [ by apply Hno in Hhere | auto ].
  - apply Exists_cons in Hex as [Hhere | Hex]; [ | auto ].
    simpl in Hhere. table_cases Hin; discriminate.
  - apply Exists_cons in Hex as [Hhere | Hex].
    { simpl in Hhere. table_cases Hin; discriminate. }
    apply Exists_cons in Hex as [ [] | Hex ]. auto.
  - apply Exists_cons in Hex as [Hhere | Hex]; [ | auto ].
    simpl in Hhere. eapply steps_debug_kept; [ done | ].
    simpl. rewrite Hhere. apply lookup_insert_eq.
Qed.

(** The attributes of the namespace of the [predict] parser are those of
    its four arguments, whatever is parsed. *)
Lemma steps_dom toks st st' :
  steps toks st st' ->
  dom (namespace st) = ({[ "pitcher"; "opponent"; "park"; "debug" ]} : gset string) ->
  dom (namespace st') = ({[ "pitcher"; "opponent"; "park"; "debug" ]} : gset string).
Proof.
  induction 1 as [ st | t toks st st' Hno _ IH | raw a s v toks st st' Hin Hkind _ IH
                 | raw a s v toks st st' Hin Hkind _ IH
                 | raw a s toks st st' Hin Hkind _ IH ]; intros Hdom.
  - done.
  - by apply IH.
  - apply IH. simpl. rewrite dom_insert_L, Hdom.
    table_cases Hin; try discriminate; set_solver.
  - apply IH. simpl. rewrite dom_insert_L, Hdom.
    table_cases Hin; try discriminate; set_solver.
  - apply IH. simpl. rewrite dom_insert_L, Hdom.
    table_cases Hin; try discriminate; set_solver.
Qed.

(** A run that stores no [--] puts no list into the namespace. *)
Lemma steps_no_list toks st st' :
  steps toks st st' ->
  Forall token_plain toks ->
  no_list (namespace st) -> no_list (namespace st').
Proof.
  assert (forall d v ns, v <> "--" -> no_list ns ->
                         no_list (<[d := get_values [v]]> ns)) as Hstore.
  { intros d v ns Hv Hns d' items. rewrite (get_values_string v Hv).
    destruct (decide (d = d')) as [-> | Hne].
    - by rewrite lookup_insert_eq.
    - rewrite lookup_insert_ne by done. apply Hns. }
  induction 1 as [ st | t toks st st' Hno _ IH | raw a s v toks st st' Hin Hkind _ IH
                 | raw a s v toks st st' Hin Hkind _ IH
                 | raw a s toks st st' Hin Hkind _ IH ]; intros Hplain Hns.
  - done.
  - apply Forall_cons in Hplain as [_ Hplain]. by apply IH.
  - apply Forall_cons in Hplain as [Hv Hplain].
    apply IH; [ done | ]. apply Hstore; [ by apply Hv | done ].
  - apply Forall_cons in Hplain as [_ Hplain].
    apply Forall_cons in Hplain as [Hv Hplain].
    apply IH; [ done | ]. by apply Hstore.
  - apply Forall_cons in Hplain as [_ Hplain].
    apply IH; [ done | ]. simpl. intros d' items.
    destruct (decide (dest a = d')) as [-> | Hne].
    + by rewrite lookup_insert_eq.
    + rewrite lookup_insert_ne by done. apply Hns.
Qed.

Section SubCommand.

Variable negative_number : string -> bool.

Lemma supplied_predict d rest :
  supplied negative_number d ("predict" :: rest) = supplied negative_number d rest.
Proof. reflexivity. Qed.

Lemma no_separator_value_predict rest :
  no_separator_value ("predict" :: rest) = no_separator_value rest.
Proof. reflexivity. Qed.

(** The option tokens of the [predict] parser are the argument strings
    before the first [--] that stand for its options. *)
Lemma supplied_iff prog args toks d :
  classify negative_number prog predict_table args = Done toks ->
  supplied negative_number d args = true <-> Exists (token_dest d) toks.
Proof.
  unfold supplied. revert toks.
  induction args as [ | arg args IH ]; intros toks Hclass; simpl in *.
  { injection Hclass as <-. split; [ done | by intros ?%Exists_nil ]. }
  destruct (String.eqb arg "--").
  { injection Hclass as <-. simpl. split; [ done | ].
    intros Hex. apply Exists_cons in Hex as [ [] | Hex ].
    apply Exists_exists in Hex as (t & Ht & Hd).
    by apply list_elem_of_fmap in Ht as (x & -> & _). }
  unfold_monads.
  destruct (parse_optional _ _ _ arg) as [ t | ] eqn:Hopt; [ | done ].
  destruct (classify _ _ _ args) as [ ts | ]; [ | done ].
  injection Hclass as <-. specialize (IH ts eq_refl).
  simpl. rewrite orb_true_iff, IH, Exists_cons.
  assert (bool_decide (option_dest negative_number predict_table arg = Some d) = true
          <-> token_dest d match t with
                           | Some (a, s, e) => TOpt arg a s e
                           | None => TArg arg
                           end) as ->; [ | done ].
  rewrite bool_decide_eq_true. unfold option_dest.
  rewrite (parse_optional_prog _ _ [] _ _ _ Hopt).
  destruct t as [ [ [ [a|] s ] e ] | ]; simpl; [ | done | done ].
  split; [ by intros [= ?] | by intros -> ].
Qed.

Lemma Exists_token_dest_supplied prog args toks d :
  classify negative_number prog predict_table args = Done toks ->
  Exists (token_dest d) toks ->
  supplied negative_number d args = true.
Proof. intros Hclass Hex. by apply (supplied_iff prog args toks d Hclass). Qed.

(** Without [--], the tokens are the argument strings as [parse_optional]
    takes them. *)
Lemma classify_tokens prog table args toks :
  classify negative_number prog table args = Done toks ->
  TSep ∉ toks ->
  Forall2 (fun arg t =>
             raw_string t = arg
             /\ parse_optional negative_number prog table arg
                = Done (match t with
                        | TOpt _ a s e => Some (a, s, e)
                        | _ => None
                        end)) args toks.
Proof.
  revert toks. induction args as [ | arg args IH ]; intros toks Hclass Hsep.
  { injection Hclass as <-. constructor. }
  simpl in Hclass. destruct (String.eqb arg "--").
  { injection Hclass as <-. exfalso. apply Hsep. by left. }
  unfold_monads.
  destruct (parse_optional _ _ _ arg) as [ t | ] eqn:Ht; [ | done ].
  destruct (classify _ _ _ args) as [ ts | ]; [ | done ].
  injection Hclass as <-. constructor.
  - by destruct t as [ [ [a s] e] | ].
  - apply IH; [ done | ]. intros Hin. apply Hsep. by right.
Qed.

(** When no argument string gives [--] as an explicit argument, no token
    of the [predict] parser stores [--]. *)
Lemma classify_plain prog args toks :
  classify negative_number prog predict_table args = Done toks ->
  TSep ∉ toks ->
  no_separator_value args = true ->
  Forall token_plain toks.
Proof.
  intros Hclass Hsep Hno.
  pose proof (classify_tokens _ _ _ _ Hclass Hsep) as Htoks.
  clear Hclass Hsep. unfold no_separator_value in Hno.
  induction Htoks as [ | arg t args toks [Hraw Hparse] _ IH ]; [ constructor | ].
  simpl in Hno. apply andb_true_iff in Hno as [Harg Hno].
  constructor; [ | by apply IH ].
  destruct t as [ v | | raw [a|] s [e|] ]; try done; simpl in *.
  - subst v. intros ->. simpl in Hparse. discriminate.
  - intros Hkind ->.
    pose proof (parse_optional_elem_of _ _ _ _ _ _ _ Hparse) as Hin.
    destruct (parse_optional_explicit _ _ _ _ _ _ _ Hparse)
      as [ [l Hsplit] | (c0 & c1 & _ & Hs) ].
    + unfold separator_value in Harg. rewrite Hsplit in Harg. done.
    + table_cases Hin; first [ discriminate Hs | discriminate Hkind ].
Qed.

Lemma predict_start_well_typed : well_typed predict_start.
Proof.
  repeat split.
  - exists (PyStr ""). split; [ done | left; eauto ].
  - by exists false.
  - intros d _ Hseen. by apply elem_of_nil in Hseen.
Qed.

Lemma predict_start_no_list : no_list (namespace predict_start).
Proof.
  intros d items.
  destruct (decide (d = "pitcher")) as [-> | ?]; [ done | ].
  destruct (decide (d = "opponent")) as [-> | ?]; [ done | ].
  destruct (decide (d = "park")) as [-> | ?]; [ done | ].
  destruct (decide (d = "debug")) as [-> | ?]; [ done | ].
  assert (namespace predict_start !! d = None) as ->; [ | done ].
  apply not_elem_of_dom.
  assert (dom (namespace predict_start)
          = ({[ "pitcher"; "opponent"; "park"; "debug" ]} : gset string)) as ->
    by by_evaluation.
  rewrite !elem_of_union, !elem_of_singleton. intros [[[?|?]|?]|?]; done.
Qed.

(** When the [predict] parser goes through: the namespace has its four
    attributes and no other; [--pitcher] and [--opponent] were given;
    [pitcher], [opponent] and [park] hold the values of arguments, [park]
    the empty string unless [--park] was given; [debug] is true exactly
    when [--debug] was given.  If nothing is left over and no option was
    given [--] as its explicit argument, the three values are strings. *)
Lemma parse_known_args_sub_Done prog args ns unrecognized :
  parse_known_args_sub negative_number prog predict_parser args
  = Done (ns, unrecognized) ->
  exists p o k,
    ns = {[ "pitcher" := p; "opponent" := o; "park" := k;
            "debug" := PyBool (supplied negative_number "debug" args) ]}
    /\ argument_value p /\ argument_value o /\ argument_value k
    /\ supplied negative_number "pitcher" args = true
    /\ supplied negative_number "opponent" args = true
    /\ (supplied negative_number "park" args = false -> k = PyStr "")
    /\ (unrecognized = [] -> no_separator_value args = true ->
        exists ps os ks, p = PyStr ps /\ o = PyStr os /\ k = PyStr ks).
Proof.
  unfold parse_known_args_sub.
  change (option_string_actions (actions predict_parser)) with predict_table.
  fold predict_start. unfold_monads.
  destruct (classify _ _ _ args) as [ toks | ] eqn:Hclass; [ | done ].
  pose proof (consume_predict_spec negative_number prog (length toks) toks
                predict_start (le_n _) (classify_ok _ _ _ _ _ Hclass)) as Hsteps.
  destruct (consume _ _ toks _) as [ st | ]; [ | done ].
  destruct (missing_required _ _) eqn:Hmissing; [ | done ].
  intros Heq. simpl in Heq. injection Heq as <- <-.
  destruct (steps_well_typed _ _ _ Hsteps predict_start_well_typed)
    as ((k & Hk & Hkv) & [b Hb] & Hreq & Hcommand).
  assert (forall a, a ∈ actions predict_parser -> required a = true ->
                    dest a ∈ ["pitcher"; "opponent"] ->
                    (exists v, namespace st !! dest a = Some v /\ argument_value v)
                    /\ supplied negative_number (dest a) args = true)
    as Hrequired.
  { intros a Hin Hra Hda.
    pose proof (missing_required_nil _ _ a Hmissing Hin Hra) as Hseen.
    split; [ by apply Hreq | ].
    destruct (steps_seen _ _ _ Hsteps _ Hseen) as [Hnil | Hex].
    - by apply elem_of_nil in Hnil.
    - by eapply Exists_token_dest_supplied. }
  destruct (Hrequired pitcher_action) as [(p & Hp & Hpv) Hsp];
    [ rewrite predict_parser_actions, !elem_of_cons; auto | done
    | rewrite !elem_of_cons; auto | ].
  destruct (Hrequired opponent_action) as [(o & Ho & Hov) Hso];
    [ rewrite predict_parser_actions, !elem_of_cons; auto | done
    | rewrite !elem_of_cons; auto | ].
  simpl in Hp, Ho.
  assert (b = supplied negative_number "debug" args) as ->.
  { destruct (supplied negative_number "debug" args) eqn:Hsd.
    - apply (supplied_iff prog _ toks) in Hsd; [ | done ].
      rewrite (steps_debug _ _ _ Hsteps Hsd) in Hb. by injection Hb.
    - rewrite (steps_frame _ _ _ Hsteps "debug") in Hb.
      + vm_compute in Hb. by injection Hb.
      + intros Hex. by rewrite (Exists_token_dest_supplied _ _ _ _ Hclass Hex) in Hsd. }
  exists p, o, k. split; [ | repeat split; try done ].
  - apply map_eq. intros i.
    destruct (decide (i = "pitcher")) as [-> | ?]; [ by rewrite Hp | ].
    destruct (decide (i = "opponent")) as [-> | ?]; [ by rewrite Ho | ].
    destruct (decide (i = "park")) as [-> | ?]; [ by rewrite Hk | ].
    destruct (decide (i = "debug")) as [-> | ?]; [ by rewrite Hb | ].
    rewrite !lookup_insert_ne, lookup_singleton_ne by done.
    apply not_elem_of_dom.
    rewrite (steps_dom _ _ _ Hsteps) by by_evaluation.
    rewrite !elem_of_union, !elem_of_singleton. intros [[[?|?]|?]|?]; done.
  - intros Hnone.
    rewrite (steps_frame _ _ _ Hsteps "park") in Hk.
    + vm_compute in Hk. by injection Hk.
    + intros Hex. by rewrite (Exists_token_dest_supplied _ _ _ _ Hclass Hex) in Hnone.
  - intros Hextras Hno.
    assert (no_list (namespace st)) as Hlist.
    { apply (steps_no_list _ _ _ Hsteps); [ | apply predict_start_no_list ].
      apply (classify_plain prog args); [ done | | done ].
      intros Hsep. pose proof (steps_no_extras _ _ _ Hsteps Hextras) as Hall.
      rewrite Forall_forall in Hall. by apply Hall in Hsep. }
    assert (forall d v, namespace st !! d = Some v -> argument_value v ->
                        exists s, v = PyStr s) as Hstring.
    { intros d v Hd [ [s ->] | -> ]; [ eauto | by apply Hlist in Hd ]. }
    destruct (Hstring _ _ Hp Hpv) as [ps ->].
    destruct (Hstring _ _ Ho Hov) as [os ->].
    destruct (Hstring _ _ Hk Hkv) as [ks ->].
    by exists ps, os, ks.
Qed.

End SubCommand.

(** *** The top-level parser *)

Section TopLevel.

Variable negative_number : string -> bool.

Lemma asks_help_cons arg args :
  arg <> "--" ->
  asks_help negative_number args = true ->
  asks_help negative_number (arg :: args) = true.
Proof.
  unfold asks_help, supplied. simpl. intros Harg H.
  destruct (String.eqb_spec arg "--"); [ done | ]. simpl.
  apply orb_true_iff in H as [-> | ->]; rewrite ?orb_true_r; done.
Qed.

Lemma asks_help_supplied args :
  supplied negative_number "help" args = true ->
  asks_help negative_number args = true.
Proof. unfold asks_help. intros ->. apply orb_true_r. Qed.

(** The [predict] parser stops with the help only if a help option was
    given. *)
Lemma parse_known_args_sub_Halt_help prog args prog' :
  parse_known_args_sub negative_number prog predict_parser args
  = Halt prog' HelpRequested ->
  supplied negative_number "help" args = true.
Proof.
  unfold parse_known_args_sub.
  change (option_string_actions (actions predict_parser)) with predict_table.
  fold predict_start. unfold_monads.
  destruct (classify _ _ _ args) as [ toks | ] eqn:Hclass.
  - pose proof (consume_predict_spec negative_number prog (length toks) toks
                  predict_start (le_n _) (classify_ok _ _ _ _ _ Hclass)) as Hspec.
    destruct (consume _ _ toks _) as [ st | prog0 stop ].
    + unfold check_required. by destruct (missing_required _ _).
    + intros Heq. injection Heq as -> ->. destruct Hspec as [_ Hex].
      by eapply Exists_token_dest_supplied.
  - intros Heq. apply classify_Halt in Hclass as [_ [e ->]].
    injection Heq as _ Heq. discriminate.
Qed.

(** When the top-level loop goes through with the sub-command seen and
    no extras, the first string is [predict] and the [predict] parser has
    parsed the rest without extras. *)
Lemma consume_top_Done prog toks :
  forall st st',
    Forall (token_ok negative_number top_table) toks ->
    consume_top negative_number prog setup_parser toks st = Done st' ->
    extras st' = [] ->
    "command" ∈ seen_actions st' ->
    "command" ∉ seen_actions st ->
    exists rest subns,
      toks = TArg "predict" :: rest
      /\ parse_known_args_sub negative_number (prog ++ ["predict"]) predict_parser
           (map raw_string rest) = Done (subns, [])
      /\ namespace st' = subns ∪ <["command" := PyStr "predict"]> (namespace st).
Proof.
  induction toks as [ | t toks IH ]; intros st st' Hok Hrun Hextras Hseen Hnot.
  { simpl in Hrun. injection Hrun as <-. done. }
  apply Forall_cons in Hok as [Ht Hok].
  destruct t as [ name | | raw [a|] s e ].
  - simpl in Hrun. unfold call_subparsers in Hrun. simpl in Hrun.
    destruct (String.eqb_spec name "predict") as [-> | _]; [ | done ].
    unfold_monads.
    destruct (parse_known_args_sub _ _ _ _) as [ [subns unrecognized] | ] eqn:Hsub;
      [ | done ].
    injection Hrun as <-. simpl in Hextras.
    apply app_eq_nil in Hextras as [_ ->].
    exists toks, subns. done.
  - simpl in Hrun. destruct toks; [ | done ].
    injection Hrun as <-. simpl in Hextras.
    by apply app_eq_nil in Hextras as [_ ?].
  - exfalso. destruct Ht as (_ & Hin & _).
    assert (kind a = Help) as Hkind by (table_cases Hin; done).
    simpl in Hrun. unfold_monads.
    match type of Hrun with
    | context [consume_optional ?p ?tb a s e ?nx st] =>
      destruct (consume_optional_Help p tb a s e nx st Hkind) as [stop Hstop]
    end.
    by rewrite Hstop in Hrun.
  - exfalso. simpl in Hrun.
    destruct (IH _ _ Hok Hrun Hextras Hseen Hnot) as (rest & subns & -> & _ & _).
    simpl in Hrun. unfold call_subparsers in Hrun. simpl in Hrun.
    unfold_monads.
    destruct (parse_known_args_sub _ _ _ _) as [ [subns' unrecognized] | ];
      [ | done ].
    injection Hrun as <-. simpl in Hextras.
    apply app_eq_nil in Hextras as [Hextras _].
    by apply app_eq_nil in Hextras as [_ ?].
Qed.

(** The top-level loop stops with the help only if a help option was
    given, to the top-level parser or to the [predict] parser. *)
Lemma consume_top_Halt_help prog toks :
  forall st prog',
    Forall (token_ok negative_number top_table) toks ->
    consume_top negative_number prog setup_parser toks st = Halt prog' HelpRequested ->
    asks_help negative_number (map raw_string toks) = true.
Proof.
  induction toks as [ | t toks IH ]; intros st prog' Hok Hrun; [ done | ].
  apply Forall_cons in Hok as [Ht Hok].
  destruct t as [ name | | raw [a|] s e ].
  - simpl in Hrun. unfold call_subparsers in Hrun. simpl in Hrun.
    destruct (String.eqb_spec name "predict") as [-> | _]; [ | done ].
    unfold_monads.
    destruct (parse_known_args_sub _ _ _ _) as [ [subns unrecognized] | prog0 stop ]
      eqn:Hsub; [ done | ].
    injection Hrun as -> ->.
    apply asks_help_cons; [ done | ]. apply asks_help_supplied.
    by eapply parse_known_args_sub_Halt_help.
  - simpl in Hrun. by destruct toks.
  - destruct Ht as (Hraw & Hin & Hdest).
    assert (dest a = "help") as Hhelp by (table_cases Hin; done).
    unfold asks_help. simpl.
    destruct (String.eqb_spec raw "--"); [ done | ]. simpl.
    rewrite Hdest, Hhelp. by rewrite bool_decide_eq_true_2.
  - simpl in Hrun. apply asks_help_cons; [ done | ]. by eapply IH.
Qed.

Lemma check_required_Done prog names :
  check_required prog names = Done tt -> names = [].
Proof. by destruct names. Qed.

(** [parse_args] delivers a namespace only for [predict] followed by
    arguments that give [--pitcher] and [--opponent].  The namespace then
    has the command, the values of [--pitcher], [--opponent] and [--park]
    ([park] is the empty string unless [--park] was given), the flag
    [debug], which is true exactly when [--debug] was given, and nothing
    else.  The three values are strings unless an option was given [--]
    as its explicit argument. *)
Lemma parse_args_Done argv ns :
  parse_args negative_number setup_parser argv = Done ns ->
  exists rest p o k,
    argv = "predict" :: rest
    /\ ns = {[ "command" := PyStr "predict"; "pitcher" := p; "opponent" := o;
               "park" := k;
               "debug" := PyBool (supplied negative_number "debug" argv) ]}
    /\ argument_value p /\ argument_value o /\ argument_value k
    /\ supplied negative_number "pitcher" argv = true
    /\ supplied negative_number "opponent" argv = true
    /\ (supplied negative_number "park" argv = false -> k = PyStr "")
    /\ (no_separator_value argv = true ->
        exists ps os ks, p = PyStr ps /\ o = PyStr os /\ k = PyStr ks).
Proof.
  unfold parse_args, parse_known_args. fold top_table. unfold_monads.
  destruct (classify _ _ _ argv) as [ toks | ] eqn:Hclass; [ | done ].
  destruct (consume_top _ _ _ toks _) as [ st | ] eqn:Hrun; [ | done ].
  destruct (check_required _ _) as [ [] | ] eqn:Hreq; [ | done ].
  destruct (extras st) eqn:Hextras; [ | done ].
  intros Heq. injection Heq as <-.
  apply check_required_Done in Hreq.
  apply app_eq_nil in Hreq as [_ Hreq]. simpl in Hreq.
  destruct (bool_decide ("command" ∈ seen_actions st)) eqn:Hseen; [ | done ].
  apply bool_decide_eq_true in Hseen.
  destruct (consume_top_Done [] toks _ st (classify_ok _ _ _ _ _ Hclass) Hrun
              Hextras Hseen) as (rest & subns & -> & Hsub & Hns).
  { simpl. apply not_elem_of_nil. }
  apply classify_raw in Hclass. simpl in Hclass. subst argv.
  destruct (parse_known_args_sub_Done _ _ _ _ _ Hsub)
    as (p & o & k & -> & Hp & Ho & Hk & Hsp & Hso & Hdk & Hstrings).
  exists (map raw_string rest), p, o, k. rewrite Hns.
  rewrite !supplied_predict, no_separator_value_predict.
  split; [ done | ]. split.
  { generalize (supplied negative_number "debug" (map raw_string rest)). intros b.
    by_evaluation. }
  repeat split; try done. by apply Hstrings.
Qed.

(** [parse_args] stops with the help only if a help option was given. *)
Lemma parse_args_Halt_help argv prog :
  parse_args negative_number setup_parser argv = Halt prog HelpRequested ->
  asks_help negative_number argv = true.
Proof.
  unfold parse_args, parse_known_args. fold top_table. unfold_monads.
  destruct (classify _ _ _ argv) as [ toks | ] eqn:Hclass.
  - destruct (consume_top _ _ _ toks _) as [ st | prog0 stop ] eqn:Hrun.
    + unfold check_required.
      destruct (_ ++ _); [ | done ]. by destruct (extras st).
    + intros Heq. injection Heq as -> ->.
      rewrite <- (classify_raw _ _ _ _ _ Hclass).
      eapply consume_top_Halt_help; [ | done ].
      by eapply classify_ok.
  - intros Heq. apply classify_Halt in Hclass as [_ [e ->]]. by injection Heq.
Qed.

End TopLevel.

(** *** From the top-level parser to the [predict] parser *)


Section ArgparseMore.

Variable negative_number : string -> bool.

Lemma is_dash_eq c : is_dash c = true -> c = "-"%char.
Proof. unfold is_dash. by intros ?%Ascii.eqb_eq. Qed.

(** An abbreviation stands for at most one option of the top-level
    parser, which has the help option only. *)
Lemma get_option_tuples_top c rest :
  (length (get_option_tuples top_table (String "-" (String c rest))) <= 1)%nat.
Proof.
  unfold get_option_tuples. rewrite top_table_eq. cbn beta iota.
  destruct (is_dash c) eqn:Hc.
  - apply is_dash_eq in Hc as ->. simpl split_eq.
    destruct (split_eq rest) as [ [l r] | ]; simpl; repeat case_match; simpl; lia.
  - assert (String.eqb "--help" (String "-" (String c "")) = false) as Heq
      by (by apply String.eqb_neq).
    assert (String.prefix (String "-" (String c rest)) "--help" = false) as Hprefix.
    { cbn [String.prefix]. destruct (ascii_dec "-" "-"); [ | done ].
      destruct (ascii_dec c "-") as [-> | ]; done. }
    cbn [omap list_omap]. rewrite Heq, Hprefix.
    repeat case_match; simpl; lia.
Qed.

(** The top-level parser never finds an argument string ambiguous. *)
Lemma parse_optional_top_Done prog arg :
  exists t, parse_optional negative_number prog top_table arg = Done t.
Proof.
  unfold parse_optional. destruct arg as [ | c arg ]; [ eauto | ].
  destruct (is_dash c) eqn:Hc; cbn [negb]; [ | eauto ].
  apply is_dash_eq in Hc as ->.
  destruct (lookup_option top_table _); [ eauto | ].
  destruct (Nat.eqb _ 1); [ eauto | ].
  match goal with
  | |- context [match ?w with Some t => Done (Some t) | None => _ end] =>
    destruct w; [ eauto | ]
  end.
  assert (length (get_option_tuples top_table (String "-" arg)) <= 1)%nat as Hlen.
  { destruct arg as [ | c arg ]; [ simpl; lia | apply get_option_tuples_top ]. }
  destruct (get_option_tuples _ _) as [ | t [ | t' ts ] ];
    [ repeat case_match; eauto | eauto | simpl in Hlen; lia ].
Qed.

Lemma classify_top_Done prog args :
  exists toks, classify negative_number prog top_table args = Done toks.
Proof.
  induction args as [ | arg args [toks IH] ]; simpl; [ eauto | ].
  destruct (String.eqb arg "--"); [ eauto | ].
  destruct (parse_optional_top_Done prog arg) as [t ->]. unfold_monads.
  rewrite IH. eauto.
Qed.

(** For an invocation of [predict], the top-level parser hands the rest
    to the [predict] parser, passes on its stop, and turns its extras into
    an error. *)
Lemma parse_args_predict rest :
  parse_args negative_number setup_parser ("predict" :: rest)
  = match parse_known_args_sub negative_number ["predict"] predict_parser rest with
    | Done (subns, []) => Done (subns ∪ {[ "command" := PyStr "predict" ]})
    | Done (_, unrecognized) => Halt [] (Error (UnrecognizedArguments unrecognized))
    | Halt prog stop => Halt prog stop
    end.
Proof.
  unfold parse_args, parse_known_args. fold top_table. unfold_monads.
  destruct (classify_top_Done [] ("predict" :: rest)) as [toks Hclass].
  rewrite Hclass.
  pose proof (classify_raw _ _ _ _ _ Hclass) as Hraw.
  simpl in Hclass. unfold_monads.
  destruct (classify _ _ _ rest) as [ toks' | ]; [ | done ].
  injection Hclass as <-. simpl in Hraw. injection Hraw as Hraw.
  cbn [consume_top]. rewrite Hraw.
  unfold call_subparsers. simpl lookup_choice. simpl app. unfold_monads.
  destruct (parse_known_args_sub _ _ _ rest) as [ [subns unrecognized] | ];
    [ | done ].
  simpl. destruct unrecognized; [ | done ].
  by rewrite insert_insert_eq, insert_empty.
Qed.

End ArgparseMore.

(** *** Running the consuming loop *)

Lemma parse_optional_no_dash negative_number prog table s :
  no_dash s = true -> parse_optional negative_number prog table s = Done None.
Proof.
  unfold parse_optional, no_dash. destruct s as [ | c s ]; [ done | ].
  by intros ->.
Qed.

Lemma consume_optional_explicit prog table a s v next st :
  kind a = Store ->
  consume_optional prog table a s (Some v) next st
  = Done (stored (dest a) v st, false).
Proof.
  intros Hkind. unfold consume_optional.
  assert (consume_explicit prog table a s v next [] = Done ([(a, [v])], false))
    as ->.
  { destruct v; simpl; unfold takes_argument; by rewrite Hkind. }
  unfold_monads. simpl. unfold take_action. by rewrite Hkind.
Qed.

Lemma consume_optional_next prog table a s v st :
  kind a = Store ->
  consume_optional prog table a s None (Some (TArg v)) st
  = Done (stored (dest a) v st, true).
Proof.
  intros Hkind. unfold consume_optional, match_following, takes_argument.
  rewrite Hkind. unfold_monads. simpl. unfold take_action. by rewrite Hkind.
Qed.

Lemma consume_optional_flag prog table a s next st :
  kind a = StoreTrue ->
  consume_optional prog table a s None next st
  = Done (flagged (dest a) st, false).
Proof.
  intros Hkind. unfold consume_optional, match_following, takes_argument.
  rewrite Hkind. unfold_monads. simpl. unfold take_action. by rewrite Hkind.
Qed.

(** Runs the consuming loop of the [predict] parser on given tokens. *)
Ltac run_consume :=
  unfold_monads; cbn [consume head]; unfold_monads;
  repeat (first
    [ rewrite consume_optional_explicit by reflexivity
    | rewrite consume_optional_next by reflexivity
    | rewrite consume_optional_flag by reflexivity ];
    cbn beta iota).

(** Turns the values stored for argument strings other than [--] into
    strings. *)
Ltac as_strings :=
  unfold stored;
  repeat match goal with
         | |- context [get_values [?v]] =>
           rewrite (get_values_string v) by (first [ assumption | by intros -> ])
         end.

(** *** The help option *)

Lemma consume_optional_help prog table a s next st :
  kind a = Help ->
  consume_optional prog table a s None next st = Halt prog HelpRequested.
Proof.
  intros Hkind. unfold consume_optional, match_following, takes_argument.
  rewrite Hkind. unfold_monads. simpl. unfold take_action. by rewrite Hkind.
Qed.

(** A run of the consuming loop is the same whatever the parser is called,
    and a help option after it stops the parser with the help. *)
Lemma steps_consume prog toks st st' :
  steps toks st st' -> consume prog predict_table toks st = Done st'.
Proof.
  induction 1 as [ st | t toks st st' Hno _ IH | raw a s v toks st st' Hin Hkind _ IH
                 | raw a s v toks st st' Hin Hkind _ IH
                 | raw a s toks st st' Hin Hkind _ IH ].
  - done.
  - destruct t as [ v | | raw [a|] s e ]; try done.
    exfalso. by apply (Hno (dest a)).
  - cbn [consume]. unfold_monads.
    by rewrite consume_optional_explicit.
  - cbn [consume head]. unfold_monads.
    by rewrite consume_optional_next.
  - cbn [consume]. unfold_monads.
    by rewrite consume_optional_flag.
Qed.

Lemma steps_then_help prog toks st st' raw a s rest :
  steps toks st st' ->
  kind a = Help ->
  consume prog predict_table (toks ++ TOpt raw (Some a) s None :: rest) st
  = Halt prog HelpRequested.
Proof.
  intros Hsteps Hhelp.
  induction Hsteps as [ st | t toks st st' Hno _ IH | raw' a' s' v toks st st' Hin Hkind _ IH
                      | raw' a' s' v toks st st' Hin Hkind _ IH
                      | raw' a' s' toks st st' Hin Hkind _ IH ].
  - cbn [app consume]. unfold_monads. by rewrite consume_optional_help.
  - destruct t as [ v | | raw' [a'|] s' e ]; try done.
    exfalso. by apply (Hno (dest a')).
  - cbn [app consume]. unfold_monads.
    by rewrite consume_optional_explicit.
  - cbn [app consume head]. unfold_monads.
    by rewrite consume_optional_next.
  - cbn [app consume]. unfold_monads.
    by rewrite consume_optional_flag.
Qed.

Section HelpOption.

Variable negative_number : string -> bool.

Lemma classify_prog prog prog' table args toks :
  classify negative_number prog table args = Done toks ->
  classify negative_number prog' table args = Done toks.
Proof.
  revert toks. induction args as [ | arg args IH ]; intros toks; simpl; [ done | ].
  destruct (String.eqb arg "--"); [ done | ]. unfold_monads.
  destruct (parse_optional _ prog _ arg) as [ t | ] eqn:Hopt; [ | done ].
  rewrite (parse_optional_prog _ _ prog' _ _ _ Hopt).
  destruct (classify _ prog _ args) as [ ts | ]; [ | done ].
  by rewrite (IH ts eq_refl).
Qed.

(** Classification goes string by string up to the first [--]. *)
Lemma classify_app prog table pre rest toks1 toks2 :
  "--" ∉ pre ->
  classify negative_number prog table pre = Done toks1 ->
  classify negative_number prog table rest = Done toks2 ->
  classify negative_number prog table (pre ++ rest) = Done (toks1 ++ toks2).
Proof.
  revert toks1. induction pre as [ | arg pre IH ]; intros toks1 Hsep Hpre Hrest.
  { injection Hpre as <-. done. }
  simpl in *. destruct (String.eqb_spec arg "--") as [-> | _].
  { exfalso. apply Hsep. by left. }
  unfold_monads.
  destruct (parse_optional _ _ _ arg) as [ t | ]; [ | done ].
  destruct (classify _ _ _ pre) as [ ts | ]; [ | done ].
  injection Hpre as <-.
  rewrite (IH ts); [ done | | done | done ].
  intros Hin. apply Hsep. by right.
Qed.

(** A help option of the [predict] parser stops it with the help wherever
    it stands, when the arguments before it are consumed without an error
    and no later argument is an ambiguous abbreviation: the arguments that
    are required are only checked at the end. *)
Lemma parse_known_args_sub_help prog pre flag post :
  flag ∈ ["-h"; "--help"] ->
  "--" ∉ pre ->
  consumed negative_number pre = true ->
  unambiguous negative_number post = true ->
  parse_known_args_sub negative_number prog predict_parser (pre ++ flag :: post)
  = Halt prog HelpRequested.
Proof.
  intros Hflag Hsep Hpre Hpost. unfold consumed in Hpre. unfold unambiguous in Hpost.
  destruct (classify _ _ _ pre) as [ toks1 | ] eqn:Hclass1; [ | done ].
  destruct (classify _ _ _ post) as [ toks2 | ] eqn:Hclass2; [ | done ].
  pose proof (consume_predict_spec negative_number [] (length toks1) toks1
                predict_start (le_n _) (classify_ok _ _ _ _ _ Hclass1)) as Hsteps.
  destruct (consume _ _ toks1 _) as [ st1 | ]; [ | done ].
  apply (classify_prog _ prog) in Hclass1, Hclass2.
  assert (exists s,
             classify negative_number prog predict_table (flag :: post)
             = Done (TOpt flag (Some help_action) s None :: toks2)) as [s Hclass].
  { rewrite !elem_of_cons, elem_of_nil in Hflag.
    destruct Hflag as [-> | [-> | []]]; cbn [classify]; simpl String.eqb;
      cbv iota; unfold_monads; rewrite Hclass2; eexists; reflexivity. }
  unfold parse_known_args_sub.
  change (option_string_actions (actions predict_parser)) with predict_table.
  fold predict_start. unfold_monads.
  rewrite (classify_app _ _ _ _ _ _ Hsep Hclass1 Hclass).
  by rewrite (steps_then_help prog _ _ _ flag help_action s toks2 Hsteps).
Qed.

(** The help option of the top-level parser, given first, stops the
    parsing whatever follows. *)
Lemma parse_args_help_first flag rest :
  flag ∈ ["-h"; "--help"] ->
  parse_args negative_number setup_parser (flag :: rest) = Halt [] HelpRequested.
Proof.
  intros Hflag. unfold parse_args, parse_known_args. fold top_table.
  destruct (classify_top_Done negative_number [] rest) as [toks Hclass].
  rewrite !elem_of_cons, elem_of_nil in Hflag.
  destruct Hflag as [-> | [-> | []]]; cbn [classify]; simpl String.eqb;
    cbv iota; unfold_monads; rewrite Hclass; reflexivity.
Qed.

(** Where a help option runs first, [parse_args] stops with the help. *)
Lemma parse_args_help_runs_first argv :
  help_runs_first negative_number argv ->
  exists prog, parse_args negative_number setup_parser argv = Halt prog HelpRequested.
Proof.
  intros [ (flag & rest & -> & Hflag)
         | (pre & flag & post & -> & Hflag & Hsep & Hpre & Hpost) ].
  - exists []. by apply parse_args_help_first.
  - exists ["predict"]. rewrite parse_args_predict.
    by rewrite (parse_known_args_sub_help _ _ _ _ Hflag Hsep Hpre Hpost).
Qed.

End HelpOption.

(** ** [run_prediction] *)

Section RunPrediction.

Variable auto_project_strikeouts : PyValue -> PyValue -> PyValue -> Eff (option Dict).

Lemma append_empty_r (s : string) : s +:+ "" = s.
Proof.
  induction s as [ | c s IH ]; [ done | ].
  change (String c (s +:+ "") = String c s). by rewrite IH.
Qed.

Lemma occurs_in_suffix prefix text : occurs_in text (prefix +:+ text).
Proof. exists prefix, "". by rewrite append_empty_r. Qed.

(** What [run_prediction] does with an instance of [Exception]. *)
Lemma run_prediction_caught pitcher opponent park w e w' :
  auto_project_strikeouts pitcher opponent park
    (record_call (pitcher, opponent, park) w) = (Raise e, w') ->
  isinstance_Exception e = true ->
  run_prediction auto_project_strikeouts pitcher opponent park w
  = (Return None,
     emit {| levelname := ERROR; message := "Prediction failed: " +:+ exc_str e |}
          (configure_logging DEFAULT_CONFIG w')).
Proof.
  intros Hengine Hclass.
  unfold run_prediction, try_except, await_engine. rewrite Hengine. simpl.
  by rewrite Hclass.
Qed.

(** C1, as amended: when the engine raises an exception that is an instance
    of [Exception], [run_prediction] returns [None] instead of raising, and
    hands exactly one record to the logger, of level [ERROR], whose message
    contains the text of the exception; nothing else changes in the world
    the engine left. *)
Theorem run_prediction_contains_Exception pitcher opponent park w e w' :
  auto_project_strikeouts pitcher opponent park
    (record_call (pitcher, opponent, park) w) = (Raise e, w') ->
  isinstance_Exception e = true ->
  exists w'',
    run_prediction auto_project_strikeouts pitcher opponent park w
    = (Return None, w'')
    /\ log w'' = log w' ++ [ {| levelname := ERROR;
                                message := "Prediction failed: " +:+ exc_str e |} ]
    /\ occurs_in (exc_str e) ("Prediction failed: " +:+ exc_str e)
    /\ stdout w'' = stdout w'
    /\ engine_calls w'' = engine_calls w'
    /\ argparse_output w'' = argparse_output w'.
Proof.
  intros Hengine Hclass.
  eexists. split; [ | split; [ | split; [ | split; [ | split ] ] ] ].
  - by apply run_prediction_caught.
  - reflexivity.
  - apply occurs_in_suffix.
  - reflexivity.
  - reflexivity.
  - reflexivity.
Qed.


Lemma run_prediction_Return pitcher opponent park w r w' :
  auto_project_strikeouts pitcher opponent park
    (record_call (pitcher, opponent, park) w) = (Return r, w') ->
  run_prediction auto_project_strikeouts pitcher opponent park w = (Return r, w').
Proof.
  intros Hengine.
  unfold run_prediction, try_except, await_engine. by rewrite Hengine.
Qed.

End RunPrediction.

(** ** [main] and the [__main__] block *)

Section Process.

Variable float_repr : spec_float -> string.
Variable str_repr : string -> string.
Variable auto_project_strikeouts : PyValue -> PyValue -> PyValue -> Eff (option Dict).
Variable negative_number : string -> bool.
Variable stdout_rejects : string -> option string.

Abbreviation main' :=
  (main float_repr str_repr auto_project_strikeouts negative_number stdout_rejects).
Abbreviation dunder_main' :=
  (dunder_main float_repr str_repr auto_project_strikeouts negative_number
     stdout_rejects).
Abbreviation run_process' :=
  (run_process float_repr str_repr auto_project_strikeouts negative_number
     stdout_rejects).

(** [main] when the arguments are parsed: logging is configured, the
    prediction is run, and its result is formatted and printed. *)
Lemma main_parsed argv ns pitcher opponent park debug w :
  parse_args negative_number setup_parser argv = Done ns ->
  ns !! "command" = Some (PyStr "predict") ->
  ns !! "pitcher" = Some pitcher ->
  ns !! "opponent" = Some opponent ->
  ns !! "park" = Some park ->
  ns !! "debug" = Some debug ->
  main' argv w
  = match run_prediction auto_project_strikeouts pitcher opponent park
            (configure_logging (main_config debug) w) with
    | (Return result, w') =>
      match format_result float_repr str_repr result with
      | Return text => print stdout_rejects text w'
      | Raise e => (Raise e, w')
      end
    | (Raise e, w') => (Raise e, w')
    end.
Proof.
  intros Hparse Hc Hp Ho Hk Hd.
  unfold main, parser_parse_args, lift, logging_basicConfig, getattr.
  unfold_monads. rewrite Hparse, Hd, Hc, Hp, Ho, Hk. simpl.
  fold (main_config debug).
  destruct (run_prediction _ _ _ _ _) as [ [result | e] w' ]; [ | done ].
  by destruct (format_result float_repr str_repr result).
Qed.

(** The command of a parsed invocation is [predict]. *)
Lemma parse_args_command argv ns :
  parse_args negative_number setup_parser argv = Done ns ->
  ns !! "command" = Some (PyStr "predict").
Proof.
  intros Hparse.
  by destruct (parse_args_Done negative_number argv ns Hparse)
    as (rest & p & o & k & _ & -> & _).
Qed.

(** [main] when argparse stops: nothing but the message of argparse
    happens, and [SystemExit] carries its status. *)
Lemma main_Halt argv prog stop w :
  parse_args negative_number setup_parser argv = Halt prog stop ->
  main' argv w
  = (Raise (SystemExit (Some (stop_status stop))),
     write_argparse {| msg_prog := prog; msg_stop := stop |} w).
Proof.
  intros Hparse. unfold main, parser_parse_args. unfold_monads.
  by rewrite Hparse.
Qed.

(** The [__main__] block, by what [main] does. *)
Lemma dunder_main_cases argv w :
  dunder_main' argv w
  = match main' argv w with
    | (Return tt, w') => (Return tt, w')
    | (Raise e, w') =>
      if isinstance_KeyboardInterrupt e then print stdout_rejects CANCELLED w'
      else if isinstance_Exception e then
        (Raise (SystemExit (Some 1)),
         emit {| levelname := ERROR; message := "Fatal error: " +:+ exc_str e |}
              (configure_logging DEFAULT_CONFIG w'))
      else (Raise e, w')
    end.
Proof.
  unfold dunder_main, try_except, asyncio_run.
  destruct (main' argv w) as [ [ [] | e ] w' ]; [ done | ]. simpl.
  destruct (isinstance_KeyboardInterrupt e); [ done | ].
  by destruct (isinstance_Exception e).
Qed.

(** When argparse stops, the process has written the message of argparse
    and nothing else, and exits with the status of the stop. *)
Lemma run_process_Halt argv prog stop w :
  parse_args negative_number setup_parser argv = Halt prog stop ->
  run_process' argv w
  = (write_argparse {| msg_prog := prog; msg_stop := stop |} w, stop_status stop).
Proof.
  intros Hparse. unfold run_process.
  rewrite dunder_main_cases, (main_Halt _ _ _ _ Hparse). simpl.
  by destruct stop.
Qed.

(** The process when [main] prints a text: the text is written and the
    status is 0, or standard output cannot encode it and the
    [UnicodeEncodeError] is reported as a fatal error, with status 1. *)
Lemma run_process_print argv text w w' :
  main' argv w = print stdout_rejects text w' ->
  run_process' argv w
  = match stdout_rejects text with
    | None => (write_stdout text w', 0)
    | Some msg =>
      (emit {| levelname := ERROR; message := "Fatal error: " +:+ msg |}
            (configure_logging DEFAULT_CONFIG w'), 1)
    end.
Proof.
  intros Hmain. unfold run_process. rewrite dunder_main_cases, Hmain.
  unfold print. by destruct (stdout_rejects text).
Qed.

(** C3: [format_result(None)] is exactly the fixed warning text saying
    that no projection is available; it is what a parsed invocation prints
    when the engine fails with an instance of [Exception], provided that
    standard output can encode it: otherwise [print] raises
    [UnicodeEncodeError] and nothing is printed. *)
Theorem format_result_None :
  format_result float_repr str_repr None = Return "⚠️ No projection available"
  /\ (forall argv ns pitcher opponent park debug w e w',
        parse_args negative_number setup_parser argv = Done ns ->
        ns !! "pitcher" = Some pitcher ->
        ns !! "opponent" = Some opponent ->
        ns !! "park" = Some park ->
        ns !! "debug" = Some debug ->
        auto_project_strikeouts pitcher opponent park
          (record_call (pitcher, opponent, park)
             (configure_logging (main_config debug) w)) = (Raise e, w') ->
        isinstance_Exception e = true ->
        exists w'',
          stdout w'' = stdout w'
          /\ match stdout_rejects "⚠️ No projection available" with
             | None =>
               main' argv w
               = (Return tt, write_stdout "⚠️ No projection available" w'')
             | Some msg =>
               main' argv w = (Raise (Exc UnicodeEncodeError msg), w'')
             end).
Proof.
  split; [ reflexivity | ].
  intros argv ns pitcher opponent park debug w e w' Hparse Hp Ho Hk Hd Hengine Hclass.
  rewrite (main_parsed argv ns pitcher opponent park debug w Hparse
             (parse_args_command _ _ Hparse) Hp Ho Hk Hd).
  rewrite (run_prediction_caught _ _ _ _ _ _ _ Hengine Hclass).
  eexists. split; [ | unfold print; simpl;
                      destruct (stdout_rejects _); reflexivity ].
  reflexivity.
Qed.

(** Without [--pitcher] or without [--opponent], argparse stops. *)
Lemma missing_required_Halt argv :
  supplied negative_number "pitcher" argv = false
  \/ supplied negative_number "opponent" argv = false ->
  exists prog stop, parse_args negative_number setup_parser argv = Halt prog stop.
Proof.
  intros Hmissing.
  destruct (parse_args negative_number setup_parser argv) as [ ns | prog stop ]
    eqn:Hparse; [ exfalso | eauto ].
  destruct (parse_args_Done negative_number argv ns Hparse)
    as (rest & p & o & k & _ & _ & _ & _ & _ & Hsp & Hso & _).
  destruct Hmissing; congruence.
Qed.

(** C7: the [predict] sub-command has the required string arguments
    [--pitcher] and [--opponent] and the optional [--park] (default: the
    empty string) and [--debug] (a flag, default: false).  Whenever the
    arguments are parsed, the two required options were given, before any
    [--]; [park] is the empty string unless [--park] was given, and
    [debug] is true exactly when [--debug] was given.  The namespace holds
    the values of [--pitcher], [--opponent] and [--park] as strings, unless
    an option was given [--] as its explicit argument, for which argparse
    stores the empty list. *)
Theorem predict_arguments :
  (lookup_choice (choices (subparsers setup_parser)) "predict" = Some predict_parser
   /\ actions predict_parser
      = [ help_action;
          {| option_strings := ["--pitcher"]; dest := "pitcher"; kind := Store;
             required := true; default := Some PyNone |};
          {| option_strings := ["--opponent"]; dest := "opponent"; kind := Store;
             required := true; default := Some PyNone |};
          {| option_strings := ["--park"]; dest := "park"; kind := Store;
             required := false; default := Some (PyStr "") |};
          {| option_strings := ["--debug"]; dest := "debug"; kind := StoreTrue;
             required := false; default := Some (PyBool false) |} ])
  /\ (forall argv ns,
        parse_args negative_number setup_parser argv = Done ns ->
        exists pitcher opponent park,
          ns !! "command" = Some (PyStr "predict")
          /\ ns !! "pitcher" = Some pitcher
          /\ ns !! "opponent" = Some opponent
          /\ ns !! "park" = Some park
          /\ ns !! "debug" = Some (PyBool (supplied negative_number "debug" argv))
          /\ argument_value pitcher /\ argument_value opponent
          /\ argument_value park
          /\ (no_separator_value argv = true ->
              exists p o k,
                pitcher = PyStr p /\ opponent = PyStr o /\ park = PyStr k)
          /\ supplied negative_number "pitcher" argv = true
          /\ supplied negative_number "opponent" argv = true
          /\ (supplied negative_number "park" argv = false -> park = PyStr ""))
  /\ (forall argv,
        supplied negative_number "pitcher" argv = false
        \/ supplied negative_number "opponent" argv = false ->
        exists prog stop, parse_args negative_number setup_parser argv = Halt prog stop)
  /\ parse_args negative_number setup_parser
       ["predict"; "--pitcher"; "Paul Skenes"; "--opponent"; "PHI"]
     = Done {[ "command" := PyStr "predict"; "pitcher" := PyStr "Paul Skenes";
               "opponent" := PyStr "PHI"; "park" := PyStr "";
               "debug" := PyBool false ]}.
Proof.
  split; [ by split | ]. split; [ | split ].
  - intros argv ns Hparse.
    destruct (parse_args_Done negative_number argv ns Hparse)
      as (rest & p & o & k & _ & -> & Hp & Ho & Hk & Hsp & Hso & Hdk & Hstrings).
    exists p, o, k. repeat split; done.
  - intros argv Hmissing.
    destruct (parse_args negative_number setup_parser argv) as [ ns | prog stop ]
      eqn:Hparse; [ exfalso | eauto ].
    destruct (parse_args_Done negative_number argv ns Hparse)
      as (rest & p & o & k & _ & _ & _ & _ & _ & Hsp & Hso & _).
    destruct Hmissing; congruence.
  - rewrite parse_args_predict. unfold parse_known_args_sub.
    change (option_string_actions (actions predict_parser)) with predict_table.
    fold predict_start.
    assert (classify negative_number ["predict"] predict_table
              [ "--pitcher"; "Paul Skenes"; "--opponent"; "PHI" ]
            = Done [ TOpt "--pitcher" (Some pitcher_action) "--pitcher" None;
                     TArg "Paul Skenes";
                     TOpt "--opponent" (Some opponent_action) "--opponent" None;
                     TArg "PHI" ]) as -> by reflexivity.
    run_consume. by_evaluation.
Qed.

(** C5, as amended: when [--pitcher] or [--opponent] is missing, argparse
    stops the process before logging is configured and before the engine is
    called: [main] raises [SystemExit] having only written the message of
    argparse.  The exit status is 2 (a usage error), unless a help option
    was given; where a help option runs first, the help is what argparse
    writes, and the exit status is 0. *)
Theorem missing_required_argument_exits argv w :
  supplied negative_number "pitcher" argv = false
  \/ supplied negative_number "opponent" argv = false ->
  exists prog stop,
    let w' := write_argparse {| msg_prog := prog; msg_stop := stop |} w in
    main' argv w = (Raise (SystemExit (Some (stop_status stop))), w')
    /\ run_process' argv w = (w', stop_status stop)
    /\ (stop_status stop = 2
        \/ (stop_status stop = 0 /\ asks_help negative_number argv = true))
    /\ (asks_help negative_number argv = false -> stop_status stop = 2)
    /\ (help_runs_first negative_number argv ->
        stop = HelpRequested /\ stop_status stop = 0)
    /\ engine_calls w' = engine_calls w
    /\ logging_config w' = logging_config w
    /\ log w' = log w
    /\ stdout w' = stdout w.
Proof.
  intros Hmissing.
  destruct (missing_required_Halt argv Hmissing) as (prog & stop & Hparse).
  exists prog, stop. intros w'.
  pose proof (main_Halt argv prog stop w Hparse) as Hmain. fold w' in Hmain.
  assert (stop_status stop = 2
          \/ (stop_status stop = 0 /\ asks_help negative_number argv = true))
    as Hstatus.
  { destruct stop as [ | e ]; [ right | by left ].
    split; [ done | by eapply parse_args_Halt_help ]. }
  repeat split; try done.
  - by apply run_process_Halt.
  - intros Hno. destruct Hstatus as [ | [_ Hyes] ]; [ done | congruence ].
  - apply parse_args_help_runs_first in H as [prog' Hhelp]. congruence.
  - apply parse_args_help_runs_first in H as [prog' Hhelp].
    rewrite Hhelp in Hparse. by injection Hparse as _ <-.
Qed.


End Process.


(** ** Instances *)

(** An option given [--] as its explicit argument gets the empty list, not
    a string: argparse removes the [--] from the arguments of the option
    and stores what is left. *)
Example separator_as_value :
  parse_args ascii_negative_number setup_parser
    ["predict"; "--pitcher=--"; "--opponent"; "PHI"]
  = Done {[ "command" := PyStr "predict"; "pitcher" := PyList [];
            "opponent" := PyStr "PHI"; "park" := PyStr "";
            "debug" := PyBool false ]}.
Proof. vm_compute. reflexivity. Qed.

(** The engine fails with "network timeout": the warning is printed, the
    failure is logged once, and the exit status is 0. *)
Example network_timeout :
  run_process binary_repr quoted_repr
    (engine_raising (Exc RuntimeError "network timeout"))
    ascii_negative_number utf8_stdout
    ["predict"; "--pitcher"; "Paul Skenes"; "--opponent"; "PHI"] initial_world
  = ({| stdout := ["⚠️ No projection available"];
        log := [ {| levelname := ERROR;
                    message := "Prediction failed: network timeout" |} ];
        logging_config := Some {| level := INFO; format := LOG_FORMAT |};
        argparse_output := [];
        engine_calls := [ (PyStr "Paul Skenes", PyStr "PHI", PyStr "") ] |}, 0).
Proof. vm_compute. reflexivity. Qed.

(** The same on a standard output that cannot encode the warning: nothing
    is printed, the [UnicodeEncodeError] is logged as fatal after the
    failure of the engine, and the exit status is 1. *)
Example network_timeout_ascii :
  run_process binary_repr quoted_repr
    (engine_raising (Exc RuntimeError "network timeout"))
    ascii_negative_number ascii_stdout
    ["predict"; "--pitcher"; "Paul Skenes"; "--opponent"; "PHI"] initial_world
  = ({| stdout := [];
        log := [ {| levelname := ERROR;
                    message := "Prediction failed: network timeout" |};
                 {| levelname := ERROR;
                    message := "Fatal error: 'ascii' codec can't encode characters "
                               +:+ "in position 0-1: ordinal not in range(128)" |} ];
        logging_config := Some {| level := INFO; format := LOG_FORMAT |};
        argparse_output := [];
        engine_calls := [ (PyStr "Paul Skenes", PyStr "PHI", PyStr "") ] |}, 1).
Proof. vm_compute. reflexivity. Qed.

(** The user interrupts the engine: the notice is printed, nothing is
    logged, and the exit status is 0. *)
Example interrupted :
  run_process binary_repr quoted_repr (engine_raising (Exc KeyboardInterrupt ""))
    ascii_negative_number utf8_stdout
    ["predict"; "--pitcher"; "Paul Skenes"; "--opponent"; "PHI"; "--debug"]
    initial_world
  = ({| stdout := [CANCELLED]; log := [];
        logging_config := Some {| level := DEBUG; format := LOG_FORMAT |};
        argparse_output := [];
        engine_calls := [ (PyStr "Paul Skenes", PyStr "PHI", PyStr "") ] |}, 0).
Proof. vm_compute. reflexivity. Qed.

(** The engine is cancelled: [CancelledError] reaches the interpreter
    uncaught, nothing is printed or logged, and the exit status is 1. *)
Example cancelled :
  run_process binary_repr quoted_repr (engine_raising (Exc CancelledError ""))
    ascii_negative_number utf8_stdout
    ["predict"; "--pitcher"; "Paul Skenes"; "--opponent"; "PHI"] initial_world
  = ({| stdout := []; log := [];
        logging_config := Some {| level := INFO; format := LOG_FORMAT |};
        argparse_output := [];
        engine_calls := [ (PyStr "Paul Skenes", PyStr "PHI", PyStr "") ] |}, 1).
Proof. vm_compute. reflexivity. Qed.

(** The engine ends the process itself: the status is the code of its
    [SystemExit] modulo 256. *)
Example engine_exits :
  snd (run_process binary_repr quoted_repr (engine_raising (SystemExit (Some 256)))
         ascii_negative_number utf8_stdout
         ["predict"; "--pitcher"; "Paul Skenes"; "--opponent"; "PHI"] initial_world)
  = 0
  /\ snd (run_process binary_repr quoted_repr (engine_raising (SystemExit (Some (-1))))
            ascii_negative_number utf8_stdout
            ["predict"; "--pitcher"; "Paul Skenes"; "--opponent"; "PHI"]
            initial_world)
     = 255.
Proof. split; vm_compute; reflexivity. Qed.

(** A result without [mean]: the [KeyError] of [format_result] is logged
    as fatal and the exit status is 1. *)
Example malformed_result :
  run_process binary_repr quoted_repr
    (engine_returning (Some {[ "pitcher" := PyStr "Paul Skenes";
                               "opponent" := PyStr "PHI" ]}))
    ascii_negative_number utf8_stdout
    ["predict"; "--pitcher"; "Paul Skenes"; "--opponent"; "PHI"] initial_world
  = ({| stdout := [];
        log := [ {| levelname := ERROR; message := "Fatal error: 'mean'" |} ];
        logging_config := Some {| level := INFO; format := LOG_FORMAT |};
        argparse_output := [];
        engine_calls := [ (PyStr "Paul Skenes", PyStr "PHI", PyStr "") ] |}, 1).
Proof. vm_compute. reflexivity. Qed.

Lemma run_prediction_contains_Exception_witness :
  exists w'',
    run_prediction (engine_raising (Exc RuntimeError "network timeout"))
      (PyStr "Paul Skenes") (PyStr "PHI") (PyStr "") initial_world
    = (Return None, w'')
    /\ log w''
       = log (record_call (PyStr "Paul Skenes", PyStr "PHI", PyStr "") initial_world)
         ++ [ {| levelname := ERROR;
                 message := "Prediction failed: "
                            +:+ exc_str (Exc RuntimeError "network timeout") |} ]
    /\ occurs_in (exc_str (Exc RuntimeError "network timeout"))
         ("Prediction failed: " +:+ exc_str (Exc RuntimeError "network timeout"))
    /\ stdout w''
       = stdout (record_call (PyStr "Paul Skenes", PyStr "PHI", PyStr "") initial_world)
    /\ engine_calls w''
       = engine_calls
           (record_call (PyStr "Paul Skenes", PyStr "PHI", PyStr "") initial_world)
    /\ argparse_output w''
       = argparse_output
           (record_call (PyStr "Paul Skenes", PyStr "PHI", PyStr "") initial_world).
Proof.
  apply (run_prediction_contains_Exception
           (engine_raising (Exc RuntimeError "network timeout"))).
  - reflexivity.
  - reflexivity.
Defined.

(** C1 as stated fails: a [KeyboardInterrupt] raised by the engine is not
    an instance of [Exception]; it comes out of [run_prediction], and no
    record is logged. *)
Lemma run_prediction_KeyboardInterrupt_propagates :
  run_prediction (engine_raising (Exc KeyboardInterrupt ""))
    (PyStr "Paul Skenes") (PyStr "PHI") (PyStr "") initial_world
  = (Raise (Exc KeyboardInterrupt ""),
     {| stdout := []; log := []; logging_config := None; argparse_output := [];
        engine_calls := [ (PyStr "Paul Skenes", PyStr "PHI", PyStr "") ] |}).
Proof. reflexivity. Qed.

Lemma missing_required_argument_exits_witness :
  let argv := ["predict"; "--opponent"; "PHI"; "--help"] in
  exists prog stop,
    let w' := write_argparse {| msg_prog := prog; msg_stop := stop |} initial_world in
    main binary_repr quoted_repr (engine_returning None) ascii_negative_number
      utf8_stdout argv initial_world
    = (Raise (SystemExit (Some (stop_status stop))), w')
    /\ run_process binary_repr quoted_repr (engine_returning None)
         ascii_negative_number utf8_stdout argv initial_world
       = (w', stop_status stop)
    /\ (stop_status stop = 2
        \/ (stop_status stop = 0 /\ asks_help ascii_negative_number argv = true))
    /\ (asks_help ascii_negative_number argv = false -> stop_status stop = 2)
    /\ (help_runs_first ascii_negative_number argv ->
        stop = HelpRequested /\ stop_status stop = 0)
    /\ engine_calls w' = engine_calls initial_world
    /\ logging_config w' = logging_config initial_world
    /\ log w' = log initial_world
    /\ stdout w' = stdout initial_world.
Proof.
  intros argv.
  apply (missing_required_argument_exits binary_repr quoted_repr
           (engine_returning None) ascii_negative_number utf8_stdout argv
           initial_world).
  left. vm_compute. reflexivity.
Defined.

(** C5 as stated fails: [predict --help] lacks both required arguments,
    and the process exits with status 0 after printing the help. *)
Lemma predict_help_exits_zero :
  supplied ascii_negative_number "pitcher" ["predict"; "--help"] = false
  /\ supplied ascii_negative_number "opponent" ["predict"; "--help"] = false
  /\ run_process binary_repr quoted_repr (engine_returning None)
       ascii_negative_number utf8_stdout ["predict"; "--help"] initial_world
     = ({| stdout := []; log := []; logging_config := None;
           argparse_output := [ {| msg_prog := ["predict"];
                                   msg_stop := HelpRequested |} ];
           engine_calls := [] |}, 0).
Proof. repeat split; vm_compute; reflexivity. Qed.

(** A help option that runs first, after an option the [predict] parser
    has consumed and with [--pitcher] missing: the help is printed, and the
    exit status is 0. *)
Example help_after_opponent :
  let argv := ["predict"; "--opponent"; "PHI"; "--help"] in
  help_runs_first ascii_negative_number argv
  /\ supplied ascii_negative_number "pitcher" argv = false
  /\ run_process binary_repr quoted_repr (engine_returning None)
       ascii_negative_number utf8_stdout argv initial_world
     = ({| stdout := []; log := []; logging_config := None;
           argparse_output := [ {| msg_prog := ["predict"];
                                   msg_stop := HelpRequested |} ];
           engine_calls := [] |}, 0).
Proof.
  intros argv. split; [ | split; vm_compute; reflexivity ].
  right. exists ["--opponent"; "PHI"], "--help", [].
  split; [ reflexivity | ]. split; [ rewrite !elem_of_cons; auto | ].
  split; [ | split; vm_compute; reflexivity ].
  rewrite !elem_of_cons, elem_of_nil. intros [ | [ | [] ] ]; discriminate.
Qed.



(** * Further properties *)

(** ** Formatting with [.1f] *)

Lemma all_digits_string_of_uint d :
  all_digits (NilEmpty.string_of_uint d) = true.
Proof. induction d; simpl; auto. Qed.

(** The decimal digits of a natural number: at least one, and digits
    only. *)
Lemma str_of_Z_digits n :
  0 <= n -> str_of_Z n <> "" /\ all_digits (str_of_Z n) = true.
Proof.
  intros Hn. destruct n as [ | p | p ]; [ done | | lia ].
  unfold str_of_Z. simpl.
  pose proof (all_digits_string_of_uint (Pos.to_uint p)) as Hall.
  destruct (Pos.to_uint p); simpl in *; done.
Qed.

Lemma str_of_Z_one_digit n :
  0 <= n < 10 -> exists c, str_of_Z n = String c "" /\ is_digit c = true.
Proof.
  intros Hn. replace n with (Z.of_nat (Z.to_nat n)) by lia.
  assert (Z.to_nat n < 10)%nat as Hk by lia.
  revert Hk. generalize (Z.to_nat n). intros k Hk.
  do 10 (destruct k as [ | k ]; [ eexists; split; reflexivity | ]). lia.
Qed.

(** [round_half_even] returns a nearest integer, and the even one of the
    two when the quotient lies halfway. *)
Lemma round_half_even_nearest num den :
  0 < den ->
  2 * Z.abs (num - round_half_even num den * den) <= den
  /\ (2 * Z.abs (num - round_half_even num den * den) = den ->
      Z.even (round_half_even num den) = true).
Proof.
  intros Hden. unfold round_half_even.
  pose proof (Z.div_mod num den ltac:(lia)) as Hdm.
  pose proof (Z.mod_pos_bound num den Hden) as Hmod.
  destruct (Z.ltb_spec (2 * (num mod den)) den) as [Hlt | Hge].
  - split; [ lia | ]. intros Heq. exfalso. lia.
  - destruct (Z.eqb_spec (2 * (num mod den)) den) as [Heq | Hne].
    + destruct (Z.even (num / den)) eqn:Heven.
      * split; [ lia | done ].
      * split; [ lia | ]. intros _.
        rewrite Z.even_add, Heven. reflexivity.
    + split; [ lia | ]. intros Heq. exfalso. lia.
Qed.

Lemma tenths_nonneg m e : 0 <= tenths m e.
Proof.
  unfold tenths. destruct (Z.leb_spec 0 e) as [He | He].
  - pose proof (Z.pow_nonneg 2 e ltac:(lia)). nia.
  - unfold round_half_even.
    assert (0 < 2 ^ (- e)) as Hden by (apply Z.pow_pos_nonneg; lia).
    pose proof (Z.div_pos (10 * Z.pos m) (2 ^ (- e)) ltac:(lia) Hden).
    repeat case_match; lia.
Qed.

Section FormatProperties.

Variable float_repr : spec_float -> string.
Variable str_repr : string -> string.

(** X1: what [.1f] shows for a finite float [m * 2^e] are the decimal
    digits of a number of tenths [t]: the digits of [t / 10], a dot, and
    the digit [t mod 10].  The number of tenths is exact when the float is
    an integer, and otherwise a nearest one: the shown value differs from
    the float by at most half a tenth, and a float halfway between two
    tenths goes to the even one. *)
Theorem float_format_1f_nearest_tenth s m e :
  exists t,
    float_format_1f (S754_finite s m e)
    = (if s then "-" else "") +:+ str_of_Z (t / 10) +:+ "." +:+ str_of_Z (t mod 10)
    /\ 0 <= t
    /\ (0 <= e -> t = 10 * (Z.pos m * 2 ^ e))
    /\ (e < 0 ->
        2 * Z.abs (10 * Z.pos m - t * 2 ^ (- e)) <= 2 ^ (- e)
        /\ (2 * Z.abs (10 * Z.pos m - t * 2 ^ (- e)) = 2 ^ (- e) ->
            Z.even t = true)).
Proof.
  exists (tenths m e). split; [ reflexivity | ].
  split; [ apply tenths_nonneg | ].
  unfold tenths. split.
  - intros He. by destruct (Z.leb_spec 0 e); [ | lia ].
  - intros He. destruct (Z.leb_spec 0 e); [ lia | ].
    apply round_half_even_nearest, Z.pow_pos_nonneg; lia.
Qed.

(** X2: what [.1f] prints for a float is [nan], [inf], [-inf], or an
    optional minus sign, at least one digit, a dot and exactly one digit. *)
Theorem float_format_1f_one_decimal f :
  float_format_1f f ∈ ["nan"; "inf"; "-inf"]
  \/ exists (sign : bool) whole c,
       float_format_1f f
       = (if sign then "-" else "") +:+ whole +:+ "." +:+ String c ""
       /\ whole <> "" /\ all_digits whole = true /\ is_digit c = true.
Proof.
  assert (forall s t, 0 <= t ->
            exists whole c,
              fixed1 s t = (if s then "-" else "") +:+ whole +:+ "." +:+ String c ""
              /\ whole <> "" /\ all_digits whole = true /\ is_digit c = true)
    as Hfixed.
  { intros s t Ht. unfold fixed1.
    destruct (str_of_Z_digits (t / 10)) as [Hne Hall];
      [ apply Z.div_pos; lia | ].
    destruct (str_of_Z_one_digit (t mod 10)) as (c & -> & Hc);
      [ apply Z.mod_pos_bound; lia | ].
    eauto 10. }
  destruct f as [ s | s | | s m e ].
  - right. exists s. by apply Hfixed.
  - left. destruct s; rewrite !elem_of_cons; auto.
  - left. rewrite !elem_of_cons; auto.
  - right. exists s. apply Hfixed, tenths_nonneg.
Qed.

Lemma format_1f_Return v s : format_1f v = Return s -> is_number v = true.
Proof.
  destruct v as [ | b | n | f | t | items ]; simpl; try done.
  unfold_monads. by destruct (float_of_int n).
Qed.

Lemma format_1f_Raise v e :
  format_1f v = Raise e ->
  exists cls msg, e = Exc cls msg /\ cls ∈ [ValueError; TypeError; OverflowError].
Proof.
  destruct v as [ | b | n | f | t | items ]; simpl.
  - intros [= <-]. do 2 eexists. split; [ done | rewrite !elem_of_cons; auto ].
  - destruct b; vm_compute; discriminate.
  - unfold_monads. unfold float_of_int.
    destruct (binary_normalize 53 1024 n 0 false); try done.
    intros [= <-]. do 2 eexists. split; [ done | rewrite !elem_of_cons; auto ].
  - done.
  - intros [= <-]. do 2 eexists. split; [ done | rewrite !elem_of_cons; auto ].
  - intros [= <-]. do 2 eexists. split; [ done | rewrite !elem_of_cons; auto ].
Qed.

(** The exceptions of [format_result]: a [KeyError] for a required key, or
    what [str()] and [.1f] raise. *)
Lemma format_result_Raise result e :
  format_result float_repr str_repr result = Raise e ->
  exists cls msg,
    e = Exc cls msg
    /\ ((cls = KeyError /\ msg ∈ ["'pitcher'"; "'opponent'"; "'mean'"])
        \/ cls ∈ [ValueError; TypeError; OverflowError]).
Proof.
  assert (forall v e0, format_plain float_repr str_repr v = Raise e0 ->
            exists cls msg,
              e0 = Exc cls msg
              /\ ((cls = KeyError /\ msg ∈ ["'pitcher'"; "'opponent'"; "'mean'"])
                  \/ cls ∈ [ValueError; TypeError; OverflowError])) as Hplain.
  { intros v e0 H. apply format_plain_Raise in H as (_ & msg & ->).
    do 2 eexists. split; [ done | right; rewrite !elem_of_cons; auto ]. }
  assert (forall v e0, format_1f v = Raise e0 ->
            exists cls msg,
              e0 = Exc cls msg
              /\ ((cls = KeyError /\ msg ∈ ["'pitcher'"; "'opponent'"; "'mean'"])
                  \/ cls ∈ [ValueError; TypeError; OverflowError])) as H1f.
  { intros v e0 H. apply format_1f_Raise in H as (cls & msg & -> & Hcls). eauto. }
  assert (forall k, k ∈ ["'pitcher'"; "'opponent'"; "'mean'"] ->
            exists cls msg,
              Exc KeyError k = Exc cls msg
              /\ ((cls = KeyError /\ msg ∈ ["'pitcher'"; "'opponent'"; "'mean'"])
                  \/ cls ∈ [ValueError; TypeError; OverflowError])) as Hkey
    by (intros k Hk; eauto 10).
  unfold format_result. destruct result as [d|]; [ | done ].
  destruct (Nat.eqb (size d) 0); [ done | ].
  unfold getitem. unfold_monads.
  destruct (d !! "pitcher") as [pitcher|];
    [ | intros [= <-]; apply Hkey; rewrite !elem_of_cons; auto ].
  destruct (format_plain float_repr str_repr pitcher) eqn:Hpitcher;
    [ | intros [= <-]; eauto ].
  destruct (d !! "opponent") as [opponent|];
    [ | intros [= <-]; apply Hkey; rewrite !elem_of_cons; auto ].
  destruct (format_plain float_repr str_repr opponent) eqn:Hopponent;
    [ | intros [= <-]; eauto ].
  destruct (d !! "mean") as [mean|];
    [ | intros [= <-]; apply Hkey; rewrite !elem_of_cons; auto ].
  destruct (format_1f mean) eqn:Hmean; [ | intros [= <-]; eauto ].
  destruct (format_plain float_repr str_repr (get d "vegas_line" _)) eqn:Hvegas;
    [ | intros [= <-]; eauto ].
  destruct (format_plain float_repr str_repr (get d "edge" _)) eqn:Hedge;
    [ | intros [= <-]; eauto ].
  destruct (format_1f (get d "prob_over_6.5" _)) eqn:Hprob;
    [ | intros [= <-]; eauto ].
  destruct (format_plain float_repr str_repr (get d "lineup_source" _)) eqn:Hlineup;
    [ done | intros [= <-]; eauto ].
Qed.

(** X3: the exceptions [format_result] can raise are [KeyError] for one of
    the three required keys, and the [ValueError], [TypeError] or
    [OverflowError] of [str()] and of the [.1f] format; each is an instance
    of [Exception], so the [__main__] block reports it as a fatal error. *)
Theorem format_result_error_classes result :
  match format_result float_repr str_repr result with
  | Return _ => True
  | Raise e =>
    (exists cls msg,
       e = Exc cls msg
       /\ ((cls = KeyError /\ msg ∈ ["'pitcher'"; "'opponent'"; "'mean'"])
           \/ cls ∈ [ValueError; TypeError; OverflowError]))
    /\ isinstance_Exception e = true
    /\ isinstance_KeyboardInterrupt e = false
  end.
Proof.
  destruct (format_result float_repr str_repr result) as [ text | e ] eqn:Hresult;
    [ done | ].
  destruct (format_result_Raise _ _ Hresult) as (cls & msg & -> & Hcls).
  split; [ eauto | ].
  destruct Hcls as [ [-> _] | Hcls ]; [ done | ].
  rewrite !elem_of_cons, elem_of_nil in Hcls.
  destruct Hcls as [-> | [-> | [-> | []]]]; done.
Qed.

(** X4: [format_result] returns a text exactly when the result is absent
    or empty, or has [pitcher], [opponent] and a numeric [mean], with
    [prob_over_6.5] numeric if present, and the fields shown as they are
    ([pitcher], [opponent] and, if present, [vegas_line], [edge] and
    [lineup_source]) hold values that [str()] converts, that is, no int of
    more than 4300 digits. *)
Theorem format_result_succeeds_iff (d : Dict) :
  (exists text, format_result float_repr str_repr (Some d) = Return text)
  <-> d = ∅
      \/ ((exists pitcher, d !! "pitcher" = Some pitcher /\ has_str pitcher = true)
          /\ (exists opponent,
                d !! "opponent" = Some opponent /\ has_str opponent = true)
          /\ (exists mean, d !! "mean" = Some mean /\ is_number mean = true)
          /\ (forall v, d !! "vegas_line" = Some v -> has_str v = true)
          /\ (forall v, d !! "edge" = Some v -> has_str v = true)
          /\ (forall p, d !! "prob_over_6.5" = Some p -> is_number p = true)
          /\ (forall v, d !! "lineup_source" = Some v -> has_str v = true)).
Proof.
  unfold format_result.
  destruct (Nat.eqb_spec (size d) 0) as [Hsize | Hsize].
  { apply map_size_empty_iff in Hsize. split; [ by left | eauto ]. }
  assert (d <> ∅) as Hne by (intros ->; by rewrite map_size_empty in Hsize).
  assert (forall k dflt s,
             format_plain float_repr str_repr (get d k (PyStr dflt)) = Return s ->
             forall v, d !! k = Some v -> has_str v = true) as Hget.
  { intros k dflt s Hs v Hv. rewrite (get_Some _ _ _ _ Hv) in Hs.
    by eapply format_plain_Return. }
  unfold getitem. unfold_monads. split.
  - intros [text Htext]. right.
    destruct (d !! "pitcher") as [pitcher|]; [ | done ].
    destruct (format_plain float_repr str_repr pitcher) eqn:Hpitcher; [ | done ].
    destruct (d !! "opponent") as [opponent|]; [ | done ].
    destruct (format_plain float_repr str_repr opponent) eqn:Hopponent; [ | done ].
    destruct (d !! "mean") as [mean|]; [ | done ].
    destruct (format_1f mean) as [ mean_1f | ] eqn:Hmean; [ | done ].
    destruct (format_plain float_repr str_repr (get d "vegas_line" _)) eqn:Hvegas;
      [ | done ].
    destruct (format_plain float_repr str_repr (get d "edge" _)) eqn:Hedge;
      [ | done ].
    destruct (format_1f (get d "prob_over_6.5" _)) eqn:Hprob; [ | done ].
    destruct (format_plain float_repr str_repr (get d "lineup_source" _))
      eqn:Hlineup; [ | done ].
    split; [ eauto using format_plain_Return | ].
    split; [ eauto using format_plain_Return | ].
    split; [ eauto using format_1f_Return | ].
    split; [ by eapply Hget | ]. split; [ by eapply Hget | ].
    split; [ | by eapply Hget ].
    intros p Hp. rewrite (get_Some _ _ _ _ Hp) in Hprob.
    by eapply format_1f_Return.
  - intros [-> | ((pitcher & -> & Hpitcher) & (opponent & -> & Hopponent)
                  & (mean & -> & Hmean) & Hvegas & Hedge & Hprob & Hlineup)];
      [ done | ].
    destruct (format_plain_has_str float_repr str_repr pitcher Hpitcher) as [? ->].
    destruct (format_plain_has_str float_repr str_repr opponent Hopponent) as [? ->].
    destruct (format_1f_number mean Hmean) as [mean_1f ->].
    destruct (format_plain_get float_repr str_repr d "vegas_line" "N/A" Hvegas)
      as (? & -> & _).
    destruct (format_plain_get float_repr str_repr d "edge" "N/A" Hedge)
      as (? & -> & _).
    destruct (format_plain_get float_repr str_repr d "lineup_source"
                "Lineup source unknown" Hlineup) as (? & -> & _).
    assert (exists prob_1f,
               format_1f (get d "prob_over_6.5" (PyInt 0)) = Return prob_1f)
      as [prob_1f ->]; [ | eauto ].
    unfold get. destruct (d !! "prob_over_6.5") as [p|].
    + by apply format_1f_number, Hprob.
    + by exists "0.0".
Qed.

(** X5: the text depends on the seven keys [format_result] reads and on no
    other: whatever else the engine puts into its result does not change
    what is printed, nor whether formatting fails. *)
Theorem format_result_ignores_other_keys (d d' : Dict) :
  d <> ∅ -> d' <> ∅ ->
  (forall key,
     key ∈ [ "pitcher"; "opponent"; "mean"; "vegas_line"; "edge"; "prob_over_6.5";
             "lineup_source" ] ->
     d !! key = d' !! key) ->
  format_result float_repr str_repr (Some d) = format_result float_repr str_repr (Some d').
Proof.
  intros Hne Hne' Hkeys. unfold format_result, getitem, get.
  rewrite (size_eqb_nonempty _ Hne), (size_eqb_nonempty _ Hne').
  by rewrite !Hkeys by (rewrite !elem_of_cons; auto 10).
Qed.

End FormatProperties.

(** ** Invocations of [predict] *)

Section Invocations.

Variable negative_number : string -> bool.

(** X6: options given as [--option=value] accept any value but [--] (see
    [separator_value]), also an empty one, one that starts with a dash or
    one that contains [=]; the namespace holds the values as typed,
    [--debug] sets the flag, and a repeated option keeps its last value. *)
Theorem explicit_values_as_typed pitcher opponent park other :
  pitcher <> "--" -> opponent <> "--" -> park <> "--" ->
  parse_args negative_number setup_parser
    [ "predict"; with_value "--pitcher" pitcher; with_value "--opponent" opponent;
      with_value "--park" park; "--debug" ]
  = Done {[ "command" := PyStr "predict"; "pitcher" := PyStr pitcher;
            "opponent" := PyStr opponent; "park" := PyStr park;
            "debug" := PyBool true ]}
  /\ parse_args negative_number setup_parser
       [ "predict"; with_value "--pitcher" other; with_value "--opponent" opponent;
         with_value "--pitcher" pitcher ]
     = Done {[ "command" := PyStr "predict"; "pitcher" := PyStr pitcher;
               "opponent" := PyStr opponent; "park" := PyStr "";
               "debug" := PyBool false ]}.
Proof.
  intros Hp Ho Hk.
  split; rewrite parse_args_predict; unfold parse_known_args_sub;
    change (option_string_actions (actions predict_parser)) with predict_table;
    fold predict_start.
  - assert (classify negative_number ["predict"] predict_table
              [ with_value "--pitcher" pitcher; with_value "--opponent" opponent;
                with_value "--park" park; "--debug" ]
            = Done [ TOpt (with_value "--pitcher" pitcher) (Some pitcher_action)
                       "--pitcher" (Some pitcher);
                     TOpt (with_value "--opponent" opponent) (Some opponent_action)
                       "--opponent" (Some opponent);
                     TOpt (with_value "--park" park) (Some park_action)
                       "--park" (Some park);
                     TOpt "--debug" (Some debug_action) "--debug" None ]) as ->
      by by_evaluation.
    run_consume. as_strings. by_evaluation.
  - assert (classify negative_number ["predict"] predict_table
              [ with_value "--pitcher" other; with_value "--opponent" opponent;
                with_value "--pitcher" pitcher ]
            = Done [ TOpt (with_value "--pitcher" other) (Some pitcher_action)
                       "--pitcher" (Some other);
                     TOpt (with_value "--opponent" opponent) (Some opponent_action)
                       "--opponent" (Some opponent);
                     TOpt (with_value "--pitcher" pitcher) (Some pitcher_action)
                       "--pitcher" (Some pitcher) ]) as ->
      by by_evaluation.
    run_consume. as_strings. by_evaluation.
Qed.

(** X7: options followed by their value as the next argument string accept
    any value that does not start with a dash, the empty string included: no
    other check is made on a pitcher, an opponent or a park.  The options
    may come in any order. *)
Theorem separate_values_as_typed pitcher opponent park :
  no_dash pitcher = true ->
  no_dash opponent = true ->
  no_dash park = true ->
  parse_args negative_number setup_parser
    [ "predict"; "--pitcher"; pitcher; "--opponent"; opponent ]
  = Done {[ "command" := PyStr "predict"; "pitcher" := PyStr pitcher;
            "opponent" := PyStr opponent; "park" := PyStr "";
            "debug" := PyBool false ]}
  /\ parse_args negative_number setup_parser
       [ "predict"; "--debug"; "--park"; park; "--opponent"; opponent;
         "--pitcher"; pitcher ]
     = Done {[ "command" := PyStr "predict"; "pitcher" := PyStr pitcher;
               "opponent" := PyStr opponent; "park" := PyStr park;
               "debug" := PyBool true ]}.
Proof.
  intros Hp Ho Hk.
  assert (String.eqb pitcher "--" = false) as Hp'
    by (apply String.eqb_neq; intros ->; done).
  assert (String.eqb opponent "--" = false) as Ho'
    by (apply String.eqb_neq; intros ->; done).
  assert (String.eqb park "--" = false) as Hk'
    by (apply String.eqb_neq; intros ->; done).
  split; rewrite parse_args_predict; unfold parse_known_args_sub;
    change (option_string_actions (actions predict_parser)) with predict_table;
    fold predict_start.
  - assert (classify negative_number ["predict"] predict_table
              [ "--pitcher"; pitcher; "--opponent"; opponent ]
            = Done [ TOpt "--pitcher" (Some pitcher_action) "--pitcher" None;
                     TArg pitcher;
                     TOpt "--opponent" (Some opponent_action) "--opponent" None;
                     TArg opponent ]) as ->.
    { cbn [classify]. unfold_monads. rewrite Hp', Ho'.
      rewrite (parse_optional_no_dash negative_number _ _ pitcher Hp).
      rewrite (parse_optional_no_dash negative_number _ _ opponent Ho).
      reflexivity. }
    run_consume. as_strings. by_evaluation.
  - assert (classify negative_number ["predict"] predict_table
              [ "--debug"; "--park"; park; "--opponent"; opponent;
                "--pitcher"; pitcher ]
            = Done [ TOpt "--debug" (Some debug_action) "--debug" None;
                     TOpt "--park" (Some park_action) "--park" None;
                     TArg park;
                     TOpt "--opponent" (Some opponent_action) "--opponent" None;
                     TArg opponent;
                     TOpt "--pitcher" (Some pitcher_action) "--pitcher" None;
                     TArg pitcher ]) as ->.
    { cbn [classify]. unfold_monads. rewrite Hp', Ho', Hk'.
      rewrite (parse_optional_no_dash negative_number _ _ pitcher Hp).
      rewrite (parse_optional_no_dash negative_number _ _ opponent Ho).
      rewrite (parse_optional_no_dash negative_number _ _ park Hk).
      reflexivity. }
    run_consume. as_strings. by_evaluation.
Qed.

End Invocations.


(** ** The process as a whole *)

Lemma KeyboardInterrupt_not_Exception e :
  isinstance_KeyboardInterrupt e = true -> isinstance_Exception e = false.
Proof. destruct e as [ [] msg | code ]; done. Qed.

Section WholeProcess.

Variable float_repr : spec_float -> string.
Variable str_repr : string -> string.
Variable auto_project_strikeouts : PyValue -> PyValue -> PyValue -> Eff (option Dict).
Variable negative_number : string -> bool.
Variable stdout_rejects : string -> option string.

Abbreviation run_process' :=
  (run_process float_repr str_repr auto_project_strikeouts negative_number
     stdout_rejects).

(** A parsed invocation from end to end, by what the engine does. *)
Lemma run_process_parsed argv p o k (b : bool) w :
  parse_args negative_number setup_parser argv
  = Done {[ "command" := PyStr "predict"; "pitcher" := p; "opponent" := o;
            "park" := k; "debug" := PyBool b ]} ->
  run_process' argv w
  = match auto_project_strikeouts p o k
            (record_call (p, o, k)
               (configure_logging
                  {| level := if b then DEBUG else INFO; format := LOG_FORMAT |} w))
    with
    | (Return result, w') =>
      match format_result float_repr str_repr result with
      | Return text =>
        match stdout_rejects text with
        | None => (write_stdout text w', 0)
        | Some msg =>
          (emit {| levelname := ERROR; message := "Fatal error: " +:+ msg |}
                (configure_logging DEFAULT_CONFIG w'), 1)
        end
      | Raise e =>
        (emit {| levelname := ERROR; message := "Fatal error: " +:+ exc_str e |}
              (configure_logging DEFAULT_CONFIG w'), 1)
      end
    | (Raise e, w') =>
      if isinstance_Exception e then
        let w'' :=
          emit {| levelname := ERROR;
                  message := "Prediction failed: " +:+ exc_str e |}
               (configure_logging DEFAULT_CONFIG w') in
        match stdout_rejects NO_PROJECTION with
        | None => (write_stdout NO_PROJECTION w'', 0)
        | Some msg =>
          (emit {| levelname := ERROR; message := "Fatal error: " +:+ msg |}
                (configure_logging DEFAULT_CONFIG w''), 1)
        end
      else if isinstance_KeyboardInterrupt e then
        match stdout_rejects CANCELLED with
        | None => (write_stdout CANCELLED w', 0)
        | Some _ => (w', 1)
        end
      else
        (w', match e with
             | SystemExit None => 0
             | SystemExit (Some code) =>
               if (- 2 ^ 63 <=? code) && (code <? 2 ^ 63) then code mod 256
               else 255
             | Exc _ _ => 1
             end)
    end.
Proof.
  intros Hparse.
  pose proof (main_parsed float_repr str_repr auto_project_strikeouts
                negative_number stdout_rejects argv _ p o k (PyBool b) w Hparse)
    as Hmain.
  specialize (Hmain ltac:(done) ltac:(done) ltac:(done) ltac:(done) ltac:(done)).
  unfold run_prediction, try_except, await_engine, main_config in Hmain.
  simpl truthy in Hmain.
  destruct (auto_project_strikeouts _ _ _ _) as [ [ result | e ] w' ].
  - destruct (format_result float_repr str_repr result) as [ text | e ] eqn:Hformat.
    + by apply run_process_print.
    + unfold run_process. rewrite dunder_main_cases, Hmain.
      destruct (format_result_Raise _ _ _ _ Hformat) as (cls & msg & -> & Hcls).
      destruct Hcls as [ [-> _] | Hcls ]; [ done | ].
      rewrite !elem_of_cons, elem_of_nil in Hcls.
      destruct Hcls as [-> | [-> | [-> | []]]]; done.
  - simpl in Hmain. destruct (isinstance_Exception e) eqn:Hclass.
    + by apply run_process_print.
    + unfold run_process. rewrite dunder_main_cases, Hmain, Hclass.
      destruct (isinstance_KeyboardInterrupt e) eqn:Hinterrupt.
      { unfold print. by destruct (stdout_rejects CANCELLED). }
      destruct e as [ cls msg | [ code | ] ]; [ | done | done ].
      by destruct cls.
Qed.


(** X9: the exit status is 0, 1 or 2, unless the engine itself raises
    [SystemExit] with a code, whose low eight bits then are the status
    (255 for a code that does not fit a C [long]). *)
Theorem exit_status_range argv w :
  let status :=
    snd (run_process float_repr str_repr auto_project_strikeouts negative_number
           stdout_rejects argv w) in
  status = 0 \/ status = 1 \/ status = 2
  \/ exists pitcher opponent park w0 w' code,
       auto_project_strikeouts pitcher opponent park w0
       = (Raise (SystemExit (Some code)), w')
       /\ status = if (- 2 ^ 63 <=? code) && (code <? 2 ^ 63) then code mod 256
                   else 255.
Proof.
  destruct (parse_args negative_number setup_parser argv) as [ ns | prog stop ]
    eqn:Hparse.
  - destruct (parse_args_Done _ _ _ Hparse) as (rest & p & o & k & _ & -> & _).
    rewrite (run_process_parsed _ _ _ _ _ w Hparse).
    destruct (auto_project_strikeouts _ _ _ _) as [ [ result | e ] w' ] eqn:Hengine.
    + destruct (format_result float_repr str_repr result); [ | simpl; auto ].
      destruct (stdout_rejects _); simpl; auto.
    + destruct (isinstance_Exception e).
      { destruct (stdout_rejects _); simpl; auto. }
      destruct (isinstance_KeyboardInterrupt e).
      { destruct (stdout_rejects _); simpl; auto. }
      destruct e as [ cls msg | [ code | ] ]; cbn [snd]; auto.
      do 3 right. eexists p, o, k, _, w', code. split; [ exact Hengine | done ].
  - rewrite (run_process_Halt _ _ _ _ _ _ _ _ w Hparse). destruct stop; simpl; auto.
Qed.

(** X10: the sub-command comes first.  When the first argument string is
    not [predict] (also when an option of [predict] precedes it, or when
    there is no argument at all), argparse stops the process: nothing is
    logged or printed but the message of argparse, the engine is not
    called, and the status is 2 unless a help option was given. *)
Theorem sub_command_comes_first argv w :
  head argv <> Some "predict" ->
  exists prog stop,
    parse_args negative_number setup_parser argv = Halt prog stop
    /\ run_process' argv w
       = (write_argparse {| msg_prog := prog; msg_stop := stop |} w,
          stop_status stop)
    /\ (asks_help negative_number argv = false -> stop_status stop = 2).
Proof.
  intros Hhead.
  destruct (parse_args negative_number setup_parser argv) as [ ns | prog stop ]
    eqn:Hparse.
  { destruct (parse_args_Done _ _ _ Hparse) as (rest & _ & _ & _ & -> & _).
    by destruct Hhead. }
  exists prog, stop. split; [ done | ]. split; [ by apply run_process_Halt | ].
  intros Hno. destruct stop; [ | done ].
  apply parse_args_Halt_help in Hparse. congruence.
Qed.

(** X11: [-h] or [--help] as the first argument string prints the help
    and ends the process with status 0, whatever follows it: nothing is
    logged, and the engine is not called. *)
Theorem help_first_wins rest w :
  run_process' ("--help" :: rest) w
  = (write_argparse {| msg_prog := []; msg_stop := HelpRequested |} w, 0)
  /\ run_process' ("-h" :: rest) w
     = (write_argparse {| msg_prog := []; msg_stop := HelpRequested |} w, 0).
Proof.
  split;
    apply (run_process_Halt float_repr str_repr auto_project_strikeouts
             negative_number stdout_rejects _ [] HelpRequested),
          parse_args_help_first; rewrite !elem_of_cons; auto.
Qed.

(** X12: [run_prediction] never raises an instance of [Exception]: what
    comes out of it is what the engine raised outside [Exception], in the
    world the engine left. *)
Theorem run_prediction_never_raises_Exception pitcher opponent park w e w' :
  run_prediction auto_project_strikeouts pitcher opponent park w = (Raise e, w') ->
  isinstance_Exception e = false
  /\ auto_project_strikeouts pitcher opponent park
       (record_call (pitcher, opponent, park) w) = (Raise e, w').
Proof.
  unfold run_prediction, try_except, await_engine.
  destruct (auto_project_strikeouts _ _ _ _) as [ [ result | e0 ] w0 ]; [ done | ].
  simpl. destruct (isinstance_Exception e0) eqn:Hclass; [ done | ].
  by intros [= <- <-].
Qed.

End WholeProcess.

(** ** Abbreviated options and stray arguments *)

Lemma prefix_nil_inv s : String.prefix s "" = true -> s = "".
Proof. by destruct s. Qed.

Lemma prefix_cons_inv s c t :
  String.prefix s (String c t) = true ->
  s = "" \/ exists s', s = String c s' /\ String.prefix s' t = true.
Proof.
  destruct s as [ | c' s' ]; [ by left | ]. simpl.
  destruct (ascii_dec c' c) as [-> | ]; [ | done ]. right. eauto.
Qed.

(** The prefixes of a given string, one by one. *)
Ltac prefixes H :=
  first
    [ apply prefix_nil_inv in H; subst
    | let s' := fresh "s" in
      apply prefix_cons_inv in H as [-> | (s' & -> & H)]; [ | prefixes H ] ].

Section Abbreviations.

Variable negative_number : string -> bool.

(** A string that is a prefix of one option string only stands for that
    option. *)
Lemma abbreviates_parse_optional prog s flag a :
  (flag, a) ∈ predict_table ->
  abbreviates s flag = true ->
  parse_optional negative_number prog predict_table s = Done (Some (Some a, flag, None)).
Proof.
  intros Hin Habbr. unfold abbreviates in Habbr.
  apply andb_true_iff in Habbr as [Hprefix Hunique].
  table_cases Hin; prefixes Hprefix;
    first [ by vm_compute in Hunique | vm_compute; reflexivity ].
Qed.

Lemma abbreviates_not_separator s flag :
  (exists a, (flag, a) ∈ predict_table) ->
  abbreviates s flag = true -> String.eqb s "--" = false.
Proof.
  intros [a Hin] Habbr. apply String.eqb_neq. intros ->.
  table_cases Hin; by vm_compute in Habbr.
Qed.

(** X13: an option of [predict] may be abbreviated to any prefix that no
    other option shares ([--pi] for [--pitcher], [--o] for [--opponent]). *)
Theorem abbreviations_accepted pitcher_flag opponent_flag pitcher opponent :
  abbreviates pitcher_flag "--pitcher" = true ->
  abbreviates opponent_flag "--opponent" = true ->
  no_dash pitcher = true ->
  no_dash opponent = true ->
  parse_args negative_number setup_parser
    [ "predict"; pitcher_flag; pitcher; opponent_flag; opponent ]
  = Done {[ "command" := PyStr "predict"; "pitcher" := PyStr pitcher;
            "opponent" := PyStr opponent; "park" := PyStr "";
            "debug" := PyBool false ]}.
Proof.
  intros Hpf Hof Hp Ho. rewrite parse_args_predict.
  unfold parse_known_args_sub.
  change (option_string_actions (actions predict_parser)) with predict_table.
  assert (classify negative_number ["predict"] predict_table
            [ pitcher_flag; pitcher; opponent_flag; opponent ]
          = Done [ TOpt pitcher_flag (Some pitcher_action) "--pitcher" None;
                   TArg pitcher;
                   TOpt opponent_flag (Some opponent_action) "--opponent" None;
                   TArg opponent ]) as ->.
  { cbn [classify]. unfold_monads.
    rewrite (abbreviates_not_separator pitcher_flag "--pitcher"),
      (abbreviates_not_separator opponent_flag "--opponent");
      [ | by eexists; rewrite predict_table_eq, !elem_of_cons; eauto 10 | done
        | by eexists; rewrite predict_table_eq, !elem_of_cons; eauto 10 | done ].
    assert (String.eqb pitcher "--" = false) as ->
      by (apply String.eqb_neq; intros ->; done).
    assert (String.eqb opponent "--" = false) as ->
      by (apply String.eqb_neq; intros ->; done).
    rewrite (abbreviates_parse_optional _ pitcher_flag "--pitcher" pitcher_action)
      by (rewrite ?predict_table_eq, ?elem_of_cons; auto 10).
    rewrite (abbreviates_parse_optional _ opponent_flag "--opponent" opponent_action)
      by (rewrite ?predict_table_eq, ?elem_of_cons; auto 10).
    rewrite (parse_optional_no_dash negative_number _ _ pitcher Hp).
    rewrite (parse_optional_no_dash negative_number _ _ opponent Ho).
    reflexivity. }
  fold predict_start. run_consume. as_strings. by_evaluation.
Qed.

(** X14: [predict] takes no positional argument.  A pitcher name of two
    words that is not quoted leaves its second word over, and the top-level
    parser rejects the invocation. *)
Theorem unquoted_name_rejected first last opponent :
  no_dash first = true ->
  no_dash last = true ->
  no_dash opponent = true ->
  parse_args negative_number setup_parser
    [ "predict"; "--pitcher"; first; last; "--opponent"; opponent ]
  = Halt [] (Error (UnrecognizedArguments [last])).
Proof.
  intros Hf Hl Ho. rewrite parse_args_predict.
  unfold parse_known_args_sub.
  change (option_string_actions (actions predict_parser)) with predict_table.
  assert (classify negative_number ["predict"] predict_table
            [ "--pitcher"; first; last; "--opponent"; opponent ]
          = Done [ TOpt "--pitcher" (Some pitcher_action) "--pitcher" None;
                   TArg first; TArg last;
                   TOpt "--opponent" (Some opponent_action) "--opponent" None;
                   TArg opponent ]) as ->.
  { cbn [classify]. unfold_monads.
    assert (String.eqb first "--" = false) as ->
      by (apply String.eqb_neq; intros ->; done).
    assert (String.eqb last "--" = false) as ->
      by (apply String.eqb_neq; intros ->; done).
    assert (String.eqb opponent "--" = false) as ->
      by (apply String.eqb_neq; intros ->; done).
    rewrite (parse_optional_no_dash negative_number _ _ first Hf).
    rewrite (parse_optional_no_dash negative_number _ _ last Hl).
    rewrite (parse_optional_no_dash negative_number _ _ opponent Ho).
    reflexivity. }
  fold predict_start. run_consume. as_strings. by_evaluation.
Qed.

End Abbreviations.

(** ** Instances of the properties above *)

Lemma format_result_ignores_other_keys_witness :
  format_result binary_repr quoted_repr
    (Some {[ "pitcher" := PyStr "Paul Skenes"; "opponent" := PyStr "PHI";
             "mean" := PyFloat float_7_3 ]})
  = format_result binary_repr quoted_repr
      (Some {[ "pitcher" := PyStr "Paul Skenes"; "opponent" := PyStr "PHI";
               "mean" := PyFloat float_7_3; "model_version" := PyInt 3 ]}).
Proof.
  apply (format_result_ignores_other_keys binary_repr quoted_repr).
  - intros H. apply (f_equal (fun m : Dict => m !! "pitcher")) in H.
    vm_compute in H. discriminate.
  - intros H. apply (f_equal (fun m : Dict => m !! "pitcher")) in H.
    vm_compute in H. discriminate.
  - intros key Hkey. rewrite !elem_of_cons, elem_of_nil in Hkey.
    destruct Hkey as [-> | [-> | [-> | [-> | [-> | [-> | [-> | []]]]]]]];
      reflexivity.
Defined.

Lemma explicit_values_as_typed_witness :
  parse_args ascii_negative_number setup_parser
    [ "predict"; with_value "--pitcher" "Paul Skenes"; with_value "--opponent" "PHI";
      with_value "--park" "-"; "--debug" ]
  = Done {[ "command" := PyStr "predict"; "pitcher" := PyStr "Paul Skenes";
            "opponent" := PyStr "PHI"; "park" := PyStr "-";
            "debug" := PyBool true ]}
  /\ parse_args ascii_negative_number setup_parser
       [ "predict"; with_value "--pitcher" "Skenes"; with_value "--opponent" "PHI";
         with_value "--pitcher" "Paul Skenes" ]
     = Done {[ "command" := PyStr "predict"; "pitcher" := PyStr "Paul Skenes";
               "opponent" := PyStr "PHI"; "park" := PyStr "";
               "debug" := PyBool false ]}.
Proof.
  apply (explicit_values_as_typed ascii_negative_number
           "Paul Skenes" "PHI" "-" "Skenes"); discriminate.
Defined.

Lemma separate_values_as_typed_witness :
  parse_args ascii_negative_number setup_parser
    [ "predict"; "--pitcher"; "Paul Skenes"; "--opponent"; "PHI" ]
  = Done {[ "command" := PyStr "predict"; "pitcher" := PyStr "Paul Skenes";
            "opponent" := PyStr "PHI"; "park" := PyStr "";
            "debug" := PyBool false ]}
  /\ parse_args ascii_negative_number setup_parser
       [ "predict"; "--debug"; "--park"; "PNC Park"; "--opponent"; "PHI";
         "--pitcher"; "Paul Skenes" ]
     = Done {[ "command" := PyStr "predict"; "pitcher" := PyStr "Paul Skenes";
               "opponent" := PyStr "PHI"; "park" := PyStr "PNC Park";
               "debug" := PyBool true ]}.
Proof.
  apply (separate_values_as_typed ascii_negative_number
           "Paul Skenes" "PHI" "PNC Park"); reflexivity.
Defined.

Lemma abbreviations_accepted_witness :
  parse_args ascii_negative_number setup_parser
    [ "predict"; "--pit"; "Paul Skenes"; "--o"; "PHI" ]
  = Done {[ "command" := PyStr "predict"; "pitcher" := PyStr "Paul Skenes";
            "opponent" := PyStr "PHI"; "park" := PyStr "";
            "debug" := PyBool false ]}.
Proof.
  apply (abbreviations_accepted ascii_negative_number
           "--pit" "--o" "Paul Skenes" "PHI"); reflexivity.
Defined.

Lemma unquoted_name_rejected_witness :
  parse_args ascii_negative_number setup_parser
    [ "predict"; "--pitcher"; "Paul"; "Skenes"; "--opponent"; "PHI" ]
  = Halt [] (Error (UnrecognizedArguments ["Skenes"])).
Proof.
  apply (unquoted_name_rejected ascii_negative_number "Paul" "Skenes" "PHI");
    reflexivity.
Defined.


Lemma sub_command_comes_first_witness :
  let argv := [ "--debug"; "predict"; "--pitcher"; "Paul Skenes"; "--opponent"; "PHI" ] in
  exists prog stop,
    parse_args ascii_negative_number setup_parser argv = Halt prog stop
    /\ run_process binary_repr quoted_repr (engine_returning None)
         ascii_negative_number utf8_stdout argv initial_world
       = (write_argparse {| msg_prog := prog; msg_stop := stop |} initial_world,
          stop_status stop)
    /\ (asks_help ascii_negative_number argv = false -> stop_status stop = 2).
Proof.
  intros argv.
  apply (sub_command_comes_first binary_repr quoted_repr (engine_returning None)
           ascii_negative_number utf8_stdout argv initial_world).
  discriminate.
Defined.

Lemma run_prediction_never_raises_Exception_witness :
  let e := Exc KeyboardInterrupt "" in
  let w' := record_call (PyStr "Paul Skenes", PyStr "PHI", PyStr "") initial_world in
  isinstance_Exception e = false
  /\ engine_raising e (PyStr "Paul Skenes") (PyStr "PHI") (PyStr "")
       (record_call (PyStr "Paul Skenes", PyStr "PHI", PyStr "") initial_world)
     = (Raise e, w').
Proof.
  intros e w'.
  apply (run_prediction_never_raises_Exception (engine_raising e)
           (PyStr "Paul Skenes") (PyStr "PHI") (PyStr "") initial_world e w').
  reflexivity.
Defined.
